(** * zeplo-sdk: the transport client ([src/client.ts])

    A shallow embedding of [ZeploClient], of its two operations [enqueue]
    and [respondTo], and of the pieces of the JavaScript run time they rest
    on (number-to-string conversion, [Number.parseFloat], [Date],
    [URLSearchParams], the [zod] schemas used in the file).

    Conventions.
    - A JavaScript string is a [string] (a sequence of bytes, UTF-8).
    - A JavaScript number is a [number]: NaN, the two infinities, or a
      signed decimal [digits * 10 ^ exponent], which stands for the
      binary64 number nearest to it.  A number given by the caller, read
      by [Number.parseFloat] or made by [Date.now() / 1000] is written
      with its shortest decimal; a product is the exact decimal of the
      binary64 number that the multiplication rounds to.
    - A promise is its outcome: [inl e] for a rejection with [e], [inr v]
      for fulfilment with [v].  Observable effects (the call to [fetch],
      the call of the handler, [console.error]) are appended to an event
      log that is threaded through the computation. *)

From Stdlib Require Import ZArith NArith Ascii String List DecimalString DecimalN.
From stdpp Require Import base option list gmap strings.

Local Open Scope string_scope.
Local Open Scope Z_scope.

(** ** Strings *)

Module Str.

(** The double-quote character, [U+0022]. *)
Definition dquote : string := String (ascii_of_nat 34) EmptyString.

Definition of_list (l : list ascii) : string := string_of_list_ascii l.
Definition to_list (s : string) : list ascii := list_ascii_of_string s.

(** [Array.prototype.join] on strings. *)
Fixpoint join (sep : string) (l : list string) : string :=
  match l with
  | [] => EmptyString
  | [s] => s
  | s :: rest => s +:+ sep +:+ join sep rest
  end.

(** [needle] occurs in [hay]. *)
Definition contains (needle hay : string) : Prop :=
  ∃ pre post, hay = pre +:+ needle +:+ post.

(** [hay.startsWith(p)] *)
Fixpoint startsWith (p hay : string) : bool :=
  match p, hay with
  | EmptyString, _ => true
  | String a p', String b hay' => Ascii.eqb a b && startsWith p' hay'
  | String _ _, EmptyString => false
  end.

(** [hay.includes(needle)] *)
Fixpoint includes (needle hay : string) : bool :=
  startsWith needle hay
  || match hay with
     | String _ rest => includes needle rest
     | EmptyString => false
     end.

(** Truthiness of a string: only the empty string is falsy. *)
Definition truthy (s : string) : bool :=
  match s with EmptyString => false | String _ _ => true end.

(** Decimal numeral of a natural number. *)
Definition of_N (n : N) : string := NilZero.string_of_uint (N.to_uint n).

End Str.

(** ** Numbers *)

Module Number.

Inductive number : Type :=
| NaN
| Infinity (negative : bool)
| Finite (negative : bool) (digits : N) (exponent : Z).

Definition of_Z (z : Z) : number := Finite (z <? 0) (Z.abs_N z) 0.

(** [ToBoolean]: [+0], [-0] and [NaN] are falsy. *)
Definition truthy (x : number) : bool :=
  match x with
  | NaN => false
  | Infinity _ => true
  | Finite _ m _ => negb (m =? 0)%N
  end.

(** *** Rounding to binary64 *)

(** A finite binary64 magnitude [mantissa * 2 ^ exponent], or an
    overflow. *)
Inductive binary64 : Type :=
| overflow
| binary (mantissa : Z) (exponent : Z).

(** The integer part of the binary logarithm of [a / b], for positive
    [a] and [b]. *)
Definition floor_log2 (a b : Z) : Z :=
  let e := Z.log2 a - Z.log2 b in
  if 0 <=? e
  then (if b * 2 ^ e <=? a then e else e - 1)
  else (if b <=? a * 2 ^ (- e) then e else e - 1).

(** The integer nearest to [a / b], the even one of two. *)
Definition round_half_even (a b : Z) : Z :=
  let q := a / b in
  let r := a mod b in
  if 2 * r <? b then q
  else if b <? 2 * r then q + 1
  else if Z.even q then q else q + 1.

(** A magnitude that is an integer is written with exponent 0. *)
Definition normalize (M E : Z) : binary64 :=
  if 0 <=? E then binary (M * 2 ^ E) 0
  else if M mod 2 ^ (- E) =? 0 then binary (M / 2 ^ (- E)) 0
  else binary M E.

(** The binary64 magnitude nearest to [a / b], for positive [a] and [b]:
    53 bits of mantissa, exponents from -1074 to 971, ties to even. *)
Definition round64 (a b : Z) : binary64 :=
  let E := Z.max (floor_log2 a b - 52) (-1074) in
  let M := if 0 <=? E then round_half_even a (b * 2 ^ E)
           else round_half_even (a * 2 ^ (- E)) b in
  if (971 <? E) || ((E =? 971) && (M =? 2 ^ 53)) then overflow
  else normalize M E.

(** The binary64 magnitude that the decimal [m * 10 ^ e] stands for. *)
Definition to_binary64 (m : N) (e : Z) : binary64 :=
  if (m =? 0)%N then binary 0 0
  else if 0 <=? e then round64 (Z.of_N m * 10 ^ e) 1
  else round64 (Z.of_N m) (10 ^ (- e)).

(** The exact decimal of a binary64 magnitude, with a sign. *)
Definition of_binary64 (negative : bool) (x : binary64) : number :=
  match x with
  | overflow => Infinity negative
  | binary M E =>
      if M =? 0 then Finite negative 0 0
      else if 0 <=? E then Finite negative (Z.to_N (M * 2 ^ E)) 0
      else Finite negative (Z.to_N (M * 5 ^ (- E))) E
  end.

(** [x * y]: the product of the two binary64 numbers, rounded. *)
Definition mul (x y : number) : number :=
  match x, y with
  | NaN, _ | _, NaN => NaN
  | Infinity s, Infinity t => Infinity (xorb s t)
  | Infinity s, Finite t m _ | Finite t m _, Infinity s =>
      if (m =? 0)%N then NaN else Infinity (xorb s t)
  | Finite s m e, Finite t n f =>
      match to_binary64 m e, to_binary64 n f with
      | binary M E, binary M' E' =>
          of_binary64 (xorb s t)
            (if M * M' =? 0 then binary 0 0
             else if 0 <=? E + E' then round64 (M * M' * 2 ^ (E + E')) 1
             else round64 (M * M') (2 ^ (- (E + E'))))
      | overflow, binary M _ | binary M _, overflow =>
          if M =? 0 then NaN else Infinity (xorb s t)
      | overflow, overflow => Infinity (xorb s t)
      end
  end.

(** [x / 1000], which is [x * 10^-3]. *)
Definition div1000 (x : number) : number :=
  match x with
  | Finite s m e => Finite s m (e - 3)
  | _ => x
  end.

(** Truncation toward zero of [m * 10^e], as an integer. *)
Definition trunc (negative : bool) (m : N) (e : Z) : Z :=
  let a := if 0 <=? e then Z.of_N m * 10 ^ e else Z.of_N m / 10 ^ (- e) in
  if negative then - a else a.

(** *** [Number::toString], radix 10 *)

Definition zero_char : ascii := "0"%char.

Fixpoint strip_zeros (rev_digits : list ascii) : list ascii * nat :=
  match rev_digits with
  | c :: rest =>
      if Ascii.eqb c zero_char
      then let '(l, z) := strip_zeros rest in (l, S z)
      else (rev_digits, O)
  | [] => ([], O)
  end.

Definition zeros (n : nat) : list ascii := repeat zero_char n.

(** The digits [s] (without trailing zeros, [k] of them) and the
    position [n] of the decimal point: the value is [0.s * 10^n]. *)
Definition digits_and_point (m : N) (e : Z) : list ascii * Z :=
  let '(r, z) := strip_zeros (rev (Str.to_list (Str.of_N m))) in
  let s := rev r in
  (s, Z.of_nat (length s) + Z.of_nat z + e).

Definition exponent_part (n : Z) : list ascii :=
  let x := n - 1 in
  "e"%char :: (if x <? 0 then "-"%char else "+"%char)
           :: Str.to_list (Str.of_N (Z.abs_N x)).

Definition toString_positive (m : N) (e : Z) : string :=
  let '(s, n) := digits_and_point m e in
  let k := Z.of_nat (length s) in
  Str.of_list
    (if (k <=? n) && (n <=? 21) then
       s ++ zeros (Z.to_nat (n - k))
     else if (0 <? n) && (n <=? 21) then
       take (Z.to_nat n) s ++ "."%char :: drop (Z.to_nat n) s
     else if (-6 <? n) && (n <=? 0) then
       "0"%char :: "."%char :: zeros (Z.to_nat (- n)) ++ s
     else
       match s with
       | [d] => d :: exponent_part n
       | d :: ds => d :: "."%char :: ds ++ exponent_part n
       | [] => []
       end).

Definition toString (x : number) : string :=
  match x with
  | NaN => "NaN"
  | Infinity false => "Infinity"
  | Infinity true => "-Infinity"
  | Finite s m e =>
      if (m =? 0)%N then "0"
      else (if s then "-" else EmptyString) +:+ toString_positive m e
  end.

(** *** [Number.parseFloat] *)

(** The white space and line terminators of ASCII. *)
Definition is_space (c : ascii) : bool :=
  let n := nat_of_ascii c in
  ((9 <=? n) && (n <=? 13))%nat || (n =? 32)%nat.

(** The white space of two bytes: [U+00A0]. *)
Definition is_space2 (a b : ascii) : bool :=
  ((N_of_ascii a =? 194) && (N_of_ascii b =? 160))%N.

(** The white space and line terminators of three bytes: [U+1680],
    [U+2000] to [U+200A], [U+2028], [U+2029], [U+202F], [U+205F],
    [U+3000] and [U+FEFF]. *)
Definition is_space3 (a b c : ascii) : bool :=
  let x := N_of_ascii a in
  let y := N_of_ascii b in
  let z := N_of_ascii c in
  (((x =? 225) && (y =? 154) && (z =? 128))
   || ((x =? 226) && (y =? 128)
       && (((128 <=? z) && (z <=? 138)) || (z =? 168) || (z =? 169)
           || (z =? 175)))
   || ((x =? 226) && (y =? 129) && (z =? 159))
   || ((x =? 227) && (y =? 128) && (z =? 128))
   || ((x =? 239) && (y =? 187) && (z =? 191)))%N.

Fixpoint skip_spaces (l : list ascii) : list ascii :=
  match l with
  | a :: l1 =>
      if is_space a then skip_spaces l1
      else
        match l1 with
        | b :: l2 =>
            if is_space2 a b then skip_spaces l2
            else
              match l2 with
              | c :: l3 => if is_space3 a b c then skip_spaces l3 else l
              | [] => l
              end
        | [] => l
        end
  | [] => []
  end.

Definition digit_of (c : ascii) : option N :=
  let n := N_of_ascii c in
  if ((48 <=? n) && (n <=? 57))%N then Some (n - 48)%N else None.

(** Reads the longest run of decimal digits at the head of [l]:
    the value accumulated on top of [acc], how many digits were read,
    and the rest of the input. *)
Fixpoint read_digits (acc : N) (l : list ascii) : N * nat * list ascii :=
  match l with
  | c :: rest =>
      match digit_of c with
      | Some d =>
          let '(v, n, r) := read_digits (acc * 10 + d) rest in (v, S n, r)
      | None => (acc, O, l)
      end
  | [] => (acc, O, [])
  end.

(** The optional [ExponentPart]; it is consumed only when at least one
    digit follows the indicator and the sign. *)
Definition read_exponent (l : list ascii) : Z :=
  match l with
  | c :: rest =>
      if Ascii.eqb c "e"%char || Ascii.eqb c "E"%char then
        let '(neg, rest') :=
          match rest with
          | s :: r =>
              if Ascii.eqb s "-"%char then (true, r)
              else if Ascii.eqb s "+"%char then (false, r)
              else (false, rest)
          | [] => (false, rest)
          end in
        let '(v, n, _) := read_digits 0 rest' in
        match n with
        | O => 0
        | S _ => if neg then - Z.of_N v else Z.of_N v
        end
      else 0
  | [] => 0
  end.

Definition read_sign (l : list ascii) : bool * list ascii :=
  match l with
  | c :: rest =>
      if Ascii.eqb c "-"%char then (true, rest)
      else if Ascii.eqb c "+"%char then (false, rest)
      else (false, l)
  | [] => (false, l)
  end.

Definition starts_with (p : string) (l : list ascii) : bool :=
  bool_decide (take (length (Str.to_list p)) l = Str.to_list p).

Definition parseFloat (input : string) : number :=
  let '(neg, l) := read_sign (skip_spaces (Str.to_list input)) in
  if starts_with "Infinity" l then Infinity neg
  else
    let '(int, ni, after_int) := read_digits 0 l in
    match after_int with
    | c :: rest =>
        if Ascii.eqb c "."%char then
          let '(all, nf, after_frac) := read_digits int rest in
          match ni, nf with
          | O, O => NaN
          | _, _ =>
              Finite neg all (read_exponent after_frac - Z.of_nat nf)
          end
        else
          match ni with
          | O => NaN
          | S _ => Finite neg int (read_exponent after_int)
          end
    | [] =>
        match ni with
        | O => NaN
        | S _ => Finite neg int 0
        end
    end.

End Number.

Export Number(number).

(** ** Dates *)

Module Date.

(** A [Date] object: its time value in milliseconds since the epoch, or
    an invalid date (time value NaN). *)
Inductive Date : Type :=
| Invalid
| Time (ms : Z).

Definition limit : Z := 8640000000000000.

(** [abs (m * 10^e) > limit], decided exactly. *)
Definition exceeds_limit (m : N) (e : Z) : bool :=
  if 0 <=? e then limit <? Z.of_N m * 10 ^ e
  else limit * 10 ^ (- e) <? Z.of_N m.

(** [new Date(value)] for a number: [TimeClip]. *)
Definition of_number (x : number) : Date :=
  match x with
  | Number.Finite s m e =>
      if exceeds_limit m e then Invalid else Time (Number.trunc s m e)
  | _ => Invalid
  end.

(** [date.valueOf()]. *)
Definition valueOf (d : Date) : number :=
  match d with
  | Invalid => Number.NaN
  | Time ms => Number.of_Z ms
  end.

End Date.

Export Date(Date).

(** ** Values of type [unknown] *)

#[warnings="-register-all"] Inductive unknown : Type :=
| JUndefined
| JNull
| JBoolean (b : bool)
| JNumber (n : number)
| JString (s : string)
| JArray (items : list unknown)
| JObject (fields : gmap string unknown).

(** Reading a property of an object; an absent property is [undefined]. *)
Definition get_property (o : gmap string unknown) (key : string) : unknown :=
  default JUndefined (o !! key).

(** ** The [zod] schemas used by the client *)

Module z.

Inductive ZodParsedType : Type :=
| t_undefined | t_null | t_boolean | t_number | t_nan | t_string
| t_array | t_object.

Definition getParsedType (v : unknown) : ZodParsedType :=
  match v with
  | JUndefined => t_undefined
  | JNull => t_null
  | JBoolean _ => t_boolean
  | JNumber Number.NaN => t_nan
  | JNumber _ => t_number
  | JString _ => t_string
  | JArray _ => t_array
  | JObject _ => t_object
  end.

(** An [invalid_type] issue, the only kind these schemas raise. *)
Record ZodIssue : Type := invalid_type {
  path : list string;
  expected : ZodParsedType;
  received : ZodParsedType;
}.

(** A schema applied at a path: the issues found, or the parsed value. *)
Definition ZodType (A : Type) : Type :=
  list string → unknown → list ZodIssue + A.

(** [z.string()] *)
Definition string : ZodType String.string := λ path v,
  match v with
  | JString s => inr s
  | _ => inl [invalid_type path t_string (getParsedType v)]
  end.

(** The issues of both results, in order, or the pair of values. *)
Definition both {A B} (a : list ZodIssue + A) (b : list ZodIssue + B)
  : list ZodIssue + A * B :=
  match a, b with
  | inr x, inr y => inr (x, y)
  | inl i, inr _ => inl i
  | inr _, inl j => inl j
  | inl i, inl j => inl (i ++ j)%list
  end.

Definition index_key (i : nat) : String.string := Str.of_N (N.of_nat i).

Fixpoint array_items {A} (item : ZodType A) (path : list String.string)
    (i : nat) (l : list unknown) : list ZodIssue + list A :=
  match l with
  | [] => inr []
  | v :: rest =>
      match both (item (path ++ [index_key i])%list v)
                 (array_items item path (S i) rest) with
      | inl issues => inl issues
      | inr (x, xs) => inr (x :: xs)
      end
  end.

(** [z.array(item)] *)
Definition array {A} (item : ZodType A) : ZodType (list A) := λ path v,
  match v with
  | JArray l => array_items item path 0 l
  | _ => inl [invalid_type path t_array (getParsedType v)]
  end.

(** [z.object({ k1: s1, k2: s2 })] on the properties of an object;
    unknown keys are stripped. *)
Definition shape2 {A B} (k1 : String.string) (s1 : ZodType A)
    (k2 : String.string) (s2 : ZodType B) (path : list String.string)
    (o : gmap String.string unknown) : list ZodIssue + A * B :=
  both (s1 (path ++ [k1])%list (get_property o k1))
       (s2 (path ++ [k2])%list (get_property o k2)).

(** [z.object({ k: s })] *)
Definition object1 {A} (k : String.string) (s : ZodType A) : ZodType A :=
  λ path v,
  match v with
  | JObject o => s (path ++ [k])%list (get_property o k)
  | _ => inl [invalid_type path t_object (getParsedType v)]
  end.

End z.

(** ** [URLSearchParams] *)

Module URLSearchParams.

Definition hex_digit (n : N) : ascii :=
  ascii_of_N (if (n <? 10)%N then 48 + n else 55 + n).

(** The bytes the [application/x-www-form-urlencoded] serializer leaves
    as they are: ASCII letters and digits, [*], [-], [.] and [_]. *)
Definition is_plain (c : ascii) : bool :=
  let n := N_of_ascii c in
  (((48 <=? n) && (n <=? 57)) || ((65 <=? n) && (n <=? 90))
   || ((97 <=? n) && (n <=? 122))
   || (n =? 42) || (n =? 45) || (n =? 46) || (n =? 95))%N.

Definition encode_byte (c : ascii) : list ascii :=
  if is_plain c then [c]
  else if Ascii.eqb c " "%char then ["+"%char]
  else let n := N_of_ascii c in
       ["%"%char; hex_digit (n / 16); hex_digit (n mod 16)].

Definition encode (s : string) : string :=
  Str.of_list (flat_map encode_byte (Str.to_list s)).

Definition pair_toString (p : string * string) : string :=
  encode p.1 +:+ "=" +:+ encode p.2.

(** [params.toString()] for the entries of [params], in order. *)
Definition toString (entries : list (string * string)) : string :=
  Str.join "&" (map pair_toString entries).

(** [params.get(name)] *)
Definition get (entries : list (string * string)) (name : string)
  : option string :=
  snd <$> List.find (λ p, bool_decide (p.1 = name)) entries.

End URLSearchParams.

(** ** Options of the client *)

Inductive Mode : Type := dev_server | direct | production.

Inductive Delay : Type :=
| delay_number (seconds : number)
| delay_date (at_time : Date).

Inductive Backoff : Type :=
| immediate
| approach_exponential (exponent : number)
| approach_fixed (interval : number)
| approach_immediate.

Inductive Retry : Type :=
| retry_number (n : number)
| retry_object (backoff : option Backoff) (count : number).

(** The second argument of [enqueue]. *)
Record EnqueueOptions : Type := {
  trace : option string;
  delay : option Delay;
  retry : option Retry;
}.

(** [!x] is false: the value is present and truthy. *)
Definition truthy_string (x : option string) : bool :=
  match x with Some s => Str.truthy s | None => false end.

Definition truthy_delay (x : option Delay) : bool :=
  match x with
  | Some (delay_number n) => Number.truthy n
  | Some (delay_date _) => true
  | None => false
  end.

Definition truthy_retry (x : option Retry) : bool :=
  match x with
  | Some (retry_number n) => Number.truthy n
  | Some (retry_object _ _) => true
  | None => false
  end.

(** [x ?? y], and a destructuring default, which replaces [undefined]. *)
Definition or_default {A} (x : option A) (y : option A) : option A :=
  match x with Some _ => x | None => y end.

(** A template literal's rendering of a string that may be [undefined]. *)
Definition template (x : option string) : string := default "undefined" x.

(** ** Errors, effects and collaborators *)

Section Client.

(** The payload type of the queue, and the type of the values thrown by
    code outside [client.ts] (the handler, a custom serializer or schema,
    the encryptor, [fetch]) other than the errors built below. *)
Context {Payload Exn : Type}.

Inductive error : Type :=
| Error (message : string)
| ZodError (issues : list z.ZodIssue)
| Thrown (value : Exn).

(** [schema.parse(value)] of a [zod] schema: throws a [ZodError]. *)
Definition zod_parse {A} (r : list z.ZodIssue + A) : error + A :=
  match r with
  | inl issues => inl (ZodError issues)
  | inr a => inr a
  end.

Record Meta : Type := { jobId : string; start : Date }.

Record Serializer : Type := {
  serializer_parse : string → error + Payload;
  stringify : Payload → string;
}.

Record Schema : Type := { schema_parse : Payload → error + Payload }.

Record Encryptor : Type := {
  decrypt : string → error + string;
  encrypt : string → string;
}.

Record RequestInit : Type := {
  init_cache : string;
  init_method : string;
  init_credentials : string;
  init_body : string;
  init_headers : gmap string string;
}.

(** What the client reads of the [Response] of [fetch]. *)
Record Response : Type := {
  res_status : Z;
  res_text : string;
  res_json : error + unknown;
}.

(** The object [{ id }]. *)
Record Id : Type := { id : string }.

(** The world around the client: the globals and the imported modules. *)
Class Runtime : Type := {
  (** the template literal of a thrown value: its string, or what the
      conversion throws (a [TypeError] for a symbol, or for an object
      without a usable [toString]) *)
  Exn_toString : Exn → Exn + string;
  (** the message [zod] renders for a list of issues *)
  ZodError_toString : list z.ZodIssue → string;
  (** the global [JSON], as a serializer of payloads and as a parser *)
  JSON : Serializer;
  JSON_parse : string → error + unknown;
  (** [new Encryptor(secret, oldSecrets)] of [secure-e2ee] *)
  new_Encryptor : string → option (list string) → error + Encryptor;
  fetch : string → RequestInit → error + Response;
  (** what [v4()] and [Date.now()] return during the call *)
  v4 : string;
  Date_now : Z;
}.

Context {runtime : Runtime}.

(** The template literal of an [error]: its string, or what the
    conversion throws. *)
Definition String_error (e : error) : error + string :=
  match e with
  | Error EmptyString => inr "Error"
  | Error message => inr ("Error: " +:+ message)
  | ZodError issues => inr (ZodError_toString issues)
  | Thrown value =>
      match Exn_toString value with
      | inl thrown => inl (Thrown thrown)
      | inr text => inr text
      end
  end.

Inductive event : Type :=
| fetch_call (input : string) (init : RequestInit)
| handler_call (payload : Payload) (meta : Meta)
| console_error (e : error).

(** An asynchronous computation: from the events so far to an outcome
    and the events so far. *)
Definition Async (A : Type) : Type := list event → (error + A) * list event.

#[global] Instance Async_ret : MRet Async := λ A a log, (inr a, log).

#[global] Instance Async_bind : MBind Async := λ A B k m log,
  match m log with
  | (inr a, log') => k a log'
  | (inl e, log') => (inl e, log')
  end.

Definition throw {A} (e : error) : Async A := λ log, (inl e, log).

(** [try { m } catch (error) { h error }] *)
Definition try_catch {A} (m : Async A) (h : error → Async A) : Async A :=
  λ log,
  match m log with
  | (inr a, log') => (inr a, log')
  | (inl e, log') => h e log'
  end.

(** A step with no observable effect that returns or throws. *)
Definition lift {A} (r : error + A) : Async A := λ log, (r, log).

Definition emit (ev : event) : Async unit := λ log, (inr (), log ++ [ev])%list.

Definition run {A} (m : Async A) : (error + A) * list event := m [].

Definition Handler : Type := Payload → Meta → error + unit.

(** The [options] argument of [ZeploClient]. *)
Record Options : Type := {
  opt_apiUrl : option string;
  opt_baseUrl : option string;
  opt_delay : option Delay;
  opt_encryptionSecret : option string;
  opt_env : option string;
  opt_mode : option Mode;
  opt_oldSecrets : option (list string);
  opt_retry : option Retry;
  opt_schema : option Schema;
  opt_serializer : option Serializer;
  opt_token : option string;
}.

Definition no_options : Options :=
  {| opt_apiUrl := None; opt_baseUrl := None; opt_delay := None;
     opt_encryptionSecret := None; opt_env := None; opt_mode := None;
     opt_oldSecrets := None; opt_retry := None; opt_schema := None;
     opt_serializer := None; opt_token := None |}.

(** The variables captured by [enqueue] and [respondTo]. *)
Record Client : Type := {
  handler : Handler;
  route : string;
  baseUrl : option string;
  defaultDelay : option Delay;
  encryptionSecret : option string;
  env : option string;
  mode : Mode;
  defaultRetry : option Retry;
  schema : Schema;
  serializer : Serializer;
  zeploToken : option string;
  oldSecrets : option (list string);
  apiUrl : string;
  encryptor : Encryptor;
}.

(** The built-in endpoint of a mode (lines 57-61). *)
Definition mode_apiUrl (m : Mode) : string :=
  match m with
  | direct => EmptyString
  | dev_server => "http://localhost:4747"
  | production => "https://zeplo.to"
  end.

(** The default of [apiUrl] (lines 56-61). *)
Definition default_apiUrl (process_env : gmap string string) (m : Mode)
  : string :=
  match process_env !! "ZEPLO_API_URL" with
  | Some url => url
  | None => mode_apiUrl m
  end.

(** The default of [oldSecrets] (lines 53-55). *)
Definition default_oldSecrets (process_env : gmap string string)
  : error + option (list string) :=
  if truthy_string (process_env !! "ZEPLO_OLD_SECRETS") then
    match JSON_parse (template (process_env !! "ZEPLO_OLD_SECRETS")) with
    | inl e => inl e
    | inr v =>
        match zod_parse (z.array z.string [] v) with
        | inl e => inl e
        | inr l => inr (Some l)
        end
    end
  else inr None.

(** The default schema (line 50). *)
Definition cast : Schema := {| schema_parse := inr |}.

(** The encryptor of a client without a secret (lines 139-142). *)
Definition pass_through : Encryptor :=
  {| decrypt := λ input, inr input; encrypt := λ input, input |}.

(** The encryptor of a client (lines 138-143). *)
Definition make_encryptor (encryptionSecret : option string)
    (oldSecrets : option (list string)) : error + Encryptor :=
  if truthy_string encryptionSecret
  then new_Encryptor (template encryptionSecret) oldSecrets
  else inr pass_through.

(** [ZeploClient({ handler, route, options })], with the environment
    variables of the process. *)
Definition ZeploClient (handler : Handler) (route : string)
    (options : option Options) (process_env : gmap string string)
  : error + Client :=
  let o := default no_options options in
  let baseUrl := or_default (opt_baseUrl o) (process_env !! "ZEPLO_BASE_URL") in
  let encryptionSecret :=
    or_default (opt_encryptionSecret o)
               (process_env !! "ZEPLO_ENCRYPTION_SECRET") in
  let env := or_default (opt_env o) (process_env !! "NODE_ENV") in
  let mode := default production (opt_mode o) in
  let schema := default cast (opt_schema o) in
  let serializer := default JSON (opt_serializer o) in
  let zeploToken := or_default (opt_token o) (process_env !! "ZEPLO_TOKEN") in
  match
    match opt_oldSecrets o with
    | Some l => inr (Some l)
    | None => default_oldSecrets process_env
    end
  with
  | inl e => inl e
  | inr oldSecrets =>
      let apiUrl :=
        match opt_apiUrl o with
        | Some url => url
        | None => default_apiUrl process_env mode
        end in
      match make_encryptor encryptionSecret oldSecrets with
      | inl e => inl e
      | inr encryptor =>
          inr {| handler := handler; route := route; baseUrl := baseUrl;
                 defaultDelay := opt_delay o;
                 encryptionSecret := encryptionSecret; env := env;
                 mode := mode; defaultRetry := opt_retry o;
                 schema := schema; serializer := serializer;
                 zeploToken := zeploToken; oldSecrets := oldSecrets;
                 apiUrl := apiUrl; encryptor := encryptor |}
      end
  end.

(** ** [enqueue] *)

(** [[apiUrl, baseUrl].filter(Boolean)] *)
Definition url_prefix (c : Client) : list string :=
  omap (λ x : option string, if truthy_string x then x else None)
       [Some (apiUrl c); baseUrl c].

(** The target of the request, before the query string (line 161). *)
Definition target_url (c : Client) : string :=
  Str.join "/" (url_prefix c) +:+ "/" +:+ route c.

(** The value of [_retry] (lines 178-189). *)
Definition retry_value (r : Retry) : string :=
  match r with
  | retry_number n => Number.toString n
  | retry_object None count => Number.toString count
  | retry_object (Some b) count =>
      Number.toString count +:+ "|" +:+
      match b with
      | immediate | approach_immediate => "immediate"
      | approach_fixed interval => "fixed|" +:+ Number.toString interval
      | approach_exponential exponent =>
          "exponential|" +:+ Number.toString exponent
      end
  end.

Definition trace_params (trace : option string) : list (string * string) :=
  if truthy_string trace then [("_trace", template trace)] else [].

Definition delay_params (delay : option Delay) : list (string * string) :=
  match delay with
  | Some (delay_number n) =>
      if Number.truthy n then [("_delay", Number.toString n)] else []
  | Some (delay_date d) =>
      [("_delay_until", Number.toString (Date.valueOf d))]
  | None => []
  end.

Definition retry_params (retry : option Retry) : list (string * string) :=
  match retry with
  | Some r => if truthy_retry retry then [("_retry", retry_value r)] else []
  | None => []
  end.

(** The object given to [new URLSearchParams] (lines 166-191), as its
    entries in insertion order. *)
Definition search_params (c : Client) (o : EnqueueOptions)
  : list (string * string) :=
  ([("_env", template (env c))] ++ trace_params (trace o)
   ++ delay_params (delay o) ++ retry_params (retry o))%list.

(** The headers of the request (lines 197-204). *)
Definition request_headers (c : Client) : gmap string string :=
  match mode c with
  | direct =>
      {[ "X-Zeplo-Id" := v4 +:+ "-iow";
         "X-Zeplo-Start" :=
           Number.toString (Number.div1000 (Number.of_Z Date_now)) ]}
  | _ =>
      if truthy_string (zeploToken c)
      then {[ "X-Zeplo-Token" := template (zeploToken c) ]}
      else ∅
  end.

(** The message of the error of line 209. *)
Definition unexpected_response (stringifiedPayload url text : string)
  : string :=
  "Unexpected response while trying to enqueue " +:+ Str.dquote
  +:+ stringifiedPayload +:+ Str.dquote +:+ " to " +:+ url +:+ ": " +:+ text.

(** The effective options of a call (lines 148-159). *)
Definition effective_options (c : Client) (options : option EnqueueOptions)
  : EnqueueOptions :=
  let o := default {| trace := None; delay := None; retry := None |} options in
  {| trace := trace o;
     delay := or_default (delay o) (defaultDelay c);
     retry := or_default (retry o) (defaultRetry c) |}.

(** The first argument of [fetch]. *)
Definition request_input (c : Client) (o : EnqueueOptions) : string :=
  target_url c +:+ "?" +:+ URLSearchParams.toString (search_params c o).

(** The second argument of [fetch]. *)
Definition request_init (c : Client) (stringifiedPayload : string)
  : RequestInit :=
  {| init_cache := "no-store";
     init_method := "POST";
     init_credentials := "omit";
     init_body := encrypt (encryptor c) stringifiedPayload;
     init_headers := request_headers c |}.

Definition enqueue (c : Client) (payload : Payload)
    (options : option EnqueueOptions) : Async Id :=
  let o := effective_options c options in
  let url := target_url c in
  let stringifiedPayload := stringify (serializer c) payload in
  let input := request_input c o in
  let init := request_init c stringifiedPayload in
  _ ← emit (fetch_call input init);
  res ← lift (fetch input init);
  if 400 <=? res_status res then
    throw (Error (unexpected_response stringifiedPayload url (res_text res)))
  else
    json ← lift (res_json res);
    i ← lift (zod_parse (z.object1 "id" z.string [] json));
    mret {| id := i |}.

(** ** [respondTo] *)

(** The [body] of the result: a string, or the object [{ id }]. *)
Inductive ResultBody : Type :=
| body_string (s : string)
| body_object (o : Id).

Record Result : Type := { status : Z; body : ResultBody }.

(** [new Date(Number.parseFloat(start) * 1000)] (line 232) *)
Definition start_date (start : string) : Date :=
  Date.of_number (Number.mul (Number.parseFloat start) (Number.of_Z 1000)).

Definition respondTo (c : Client) (rawBody : unknown)
    (headers : gmap string unknown) : Async Result :=
  try_catch
    ('(jobId, start) ←
       lift (zod_parse (z.shape2 "x-zeplo-id" z.string
                                 "x-zeplo-start" z.string [] headers));
     text ← lift (zod_parse (z.string [] rawBody));
     plain ← lift (decrypt (encryptor c) text);
     data ← lift (serializer_parse (serializer c) plain);
     payload ← lift (schema_parse (schema c) data);
     let meta := {| jobId := jobId; start := start_date start |} in
     _ ← emit (handler_call payload meta);
     _ ← lift (handler c payload meta);
     mret {| status := 200; body := body_object {| id := jobId |} |})
    (λ error,
       _ ← emit (console_error error);
       text ← lift (String_error error);
       mret {| status := 500; body := body_string text |}).

End Client.

Arguments error : clear implicits.
Arguments Runtime : clear implicits.
Arguments Client : clear implicits.
Arguments Serializer : clear implicits.
Arguments Schema : clear implicits.
Arguments Encryptor : clear implicits.
Arguments Response : clear implicits.
Arguments Options : clear implicits.
Arguments Handler : clear implicits.
Arguments event : clear implicits.

(** ** The collaborators of the test-suite

    A concrete runtime in the manner of [next-pages.test.ts]: payloads of
    the shape [{ foo }], [fetch] mocked to answer [{ id: "foo" }] with
    status 200 and text ["res.text"], [v4] mocked to return ["foo"]. *)

Module Jest.

Record Foo : Type := { foo : string }.

Definition strip_prefix (p l : list ascii) : option (list ascii) :=
  if bool_decide (take (length p) l = p) then Some (drop (length p) l)
  else None.

Definition strip_suffix (p l : list ascii) : option (list ascii) :=
  @rev ascii <$> strip_prefix (rev p) (rev l).

Definition foo_open : string := "{" +:+ Str.dquote +:+ "foo" +:+ Str.dquote
                                +:+ ":" +:+ Str.dquote.
Definition foo_close : string := Str.dquote +:+ "}".

(** A serializer for [{ foo }] whose value needs no escaping. *)
Definition foo_serializer : Serializer Foo string :=
  {| stringify := λ p, foo_open +:+ foo p +:+ foo_close;
     serializer_parse := λ s,
       match strip_prefix (Str.to_list foo_open) (Str.to_list s)
               ≫= strip_suffix (Str.to_list foo_close) with
       | Some v => inr {| foo := Str.of_list v |}
       | None => inl (Thrown "SyntaxError: Unexpected token")
       end |}.

(** A stand-in for the cipher: the key is written before the text.
    Decryption tries the secrets it is given in order: the old secrets
    when they are given, the current secret otherwise. *)
Definition toy_decrypt (keys : list string) (input : string)
  : error string + string :=
  match
    list_find (λ k, is_Some (strip_prefix (Str.to_list (k +:+ ":"))
                                          (Str.to_list input))) keys
  with
  | Some (_, k) =>
      inr (Str.of_list (drop (length (Str.to_list (k +:+ ":")))
                             (Str.to_list input)))
  | None => inl (Error "Could not decrypt")
  end.

Definition toy_Encryptor (secret : string) (oldSecrets : option (list string))
  : error string + Encryptor string :=
  if bool_decide (String.length secret = 32%nat) then
    inr {| encrypt := λ input, secret +:+ ":" +:+ input;
           decrypt := toy_decrypt (default [secret] oldSecrets) |}
  else inl (Error "secret needs to be 32 characters long").

Definition response (status : Z) : Response string :=
  {| res_status := status; res_text := "res.text";
     res_json := inr (JObject {[ "id" := JString "foo" ]}) |}.

(** The runtime in which the service answers with [status]. *)
Definition runtime (status : Z) : Runtime Foo string :=
  {| Exn_toString := λ value, inr value;
     ZodError_toString := λ issues, "ZodError";
     JSON := foo_serializer;
     JSON_parse := λ s,
       if bool_decide (s = "[]") then inr (JArray [])
       else inl (Thrown "SyntaxError: Unexpected token");
     new_Encryptor := toy_Encryptor;
     fetch := λ input init, inr (response status);
     v4 := "foo";
     Date_now := 1696486441293 |}.

Definition process_env : gmap string string := {[ "NODE_ENV" := "test" ]}.

(** [jest.fn(async () => {})] *)
Definition resolving : Handler Foo string := λ payload meta, inr ().

(** [handler.mockRejectedValue(new Error("Mock Error"))] *)
Definition rejecting : Handler Foo string :=
  λ payload meta, inl (Error "Mock Error").

(** [Queue("route", handler)] *)
Definition queue : Client Foo string :=
  {| handler := resolving; route := "route"; baseUrl := None;
     defaultDelay := None; encryptionSecret := None; env := Some "test";
     mode := production; defaultRetry := None; schema := cast;
     serializer := foo_serializer; zeploToken := None; oldSecrets := None;
     apiUrl := "https://zeplo.to"; encryptor := pass_through |}.

(** [Queue("route", handler, { mode: "direct" })] *)
Definition direct_queue : Client Foo string :=
  {| handler := resolving; route := "route"; baseUrl := None;
     defaultDelay := None; encryptionSecret := None; env := Some "test";
     mode := direct; defaultRetry := None; schema := cast;
     serializer := foo_serializer; zeploToken := None; oldSecrets := None;
     apiUrl := EmptyString; encryptor := pass_through |}.

Definition bar : Foo := {| foo := "bar" |}.

(** The headers the mocked service delivers with. *)
Definition delivery_headers : gmap string unknown :=
  {[ "x-zeplo-id" := JString "foo";
     "x-zeplo-start" := JString "1970-01-01T00:32:50.000Z" ]}.

End Jest.

(** ** [JSON.stringify] of the object [{ id }] *)

Module JSONText.

(** Two lower-case hexadecimal digits. *)
Definition hex_digit (n : N) : ascii :=
  ascii_of_N (if (n <? 10)%N then 48 + n else 87 + n).

(** [QuoteJSONString], one code unit at a time: the short escapes, the
    [\u00XX] form of the other controls, and the rest as it is. *)
Definition quote_char (c : ascii) : list ascii :=
  let n := N_of_ascii c in
  if (n =? 8)%N then ["\"%char; "b"%char]
  else if (n =? 9)%N then ["\"%char; "t"%char]
  else if (n =? 10)%N then ["\"%char; "n"%char]
  else if (n =? 12)%N then ["\"%char; "f"%char]
  else if (n =? 13)%N then ["\"%char; "r"%char]
  else if (n =? 34)%N then ["\"%char; c]
  else if (n =? 92)%N then ["\"%char; c]
  else if (n <? 32)%N then
    ["\"%char; "u"%char; "0"%char; "0"%char;
     hex_digit (n / 16); hex_digit (n mod 16)]
  else [c].

Definition quote (s : string) : string :=
  Str.dquote +:+ Str.of_list (flat_map quote_char (Str.to_list s))
  +:+ Str.dquote.

(** [JSON.stringify({ id })] *)
Definition stringify_id (o : Id) : string :=
  "{" +:+ quote "id" +:+ ":" +:+ quote (id o) +:+ "}".

End JSONText.

(** ** The adapters ([next-pages.ts], [next-app.ts]) *)

Section Adapters.

Context {Payload Exn : Type} {runtime : Runtime Payload Exn}.

(** [Queue(route, handler, options)]: the client the adapters close
    over; the declaration throws when [ZeploClient] does. *)
Definition Queue (route : string) (handler : Handler Payload Exn)
    (options : option (Options Payload Exn))
    (process_env : gmap string string) : error Exn + Client Payload Exn :=
  ZeploClient handler route options process_env.

(** The string an adapter answers with (the [typeof] test of both). *)
Definition response_text (b : ResultBody) : string :=
  match b with
  | body_string s => s
  | body_object o => JSONText.stringify_id o
  end.

(** *** Pages Router *)

(** What the adapter reads of a [NextApiRequest]. *)
Record NextApiRequest : Type := {
  req_body : unknown;
  req_headers : gmap string unknown;
}.

(** The events of the client, and the calls on the [NextApiResponse]. *)
Inductive pages_event : Type :=
| client_event (ev : event Payload Exn)
| status_call (status : Z)
| send_call (body : string).

(** The API route: [async ({ body, headers }, res) => ...]. *)
Definition pages_handler (c : Client Payload Exn) (req : NextApiRequest)
  : (error Exn + unit) * list pages_event :=
  match run (respondTo c (req_body req) (req_headers req)) with
  | (inr r, log) =>
      (inr (),
       (map client_event log
        ++ [status_call (status r); send_call (response_text (body r))])%list)
  | (inl e, log) => (inl e, map client_event log)
  end.

(** *** App Router *)

(** What the adapter reads of a [NextRequest]: the outcome of [text()],
    which the adapter calls without its receiver (the request of the
    framework throws a [TypeError] there, the requests of the test-suite
    return their body), and the entries of [headers]. *)
Record NextRequest : Type := {
  req_text : error Exn + string;
  req_entries : list (string * string);
}.

Record NextResponse : Type := {
  response_body : string;
  response_status : Z;
}.

(** [Object.fromEntries]: a later entry replaces an earlier one. *)
Definition fromEntries (entries : list (string * string))
  : gmap string unknown :=
  foldl (λ o p, <[p.1 := JString p.2]> o) ∅ entries.

(** The route handler: [async ({ text, headers }) => ...]. *)
Definition app_handler (c : Client Payload Exn) (req : NextRequest)
  : (error Exn + NextResponse) * list (event Payload Exn) :=
  match req_text req with
  | inl e => (inl e, [])
  | inr text =>
      match run (respondTo c (JString text) (fromEntries (req_entries req)))
      with
      | (inr r, log) =>
          (inr {| response_body := response_text (body r);
                  response_status := status r |}, log)
      | (inl e, log) => (inl e, log)
      end
  end.

(** *** The loop of the test "calls queue inline instead of waiting with
    mode=direct": [fetch] hands the request to the Pages adapter, and
    [res.status] and [res.send] rewrite the response it then returns. *)

Definition fetchResponse : Response Exn :=
  {| res_status := 200; res_text := "res.text";
     res_json := inr (JObject {[ "id" := JString "foo" ]}) |}.

Definition mocked_res (r : Response Exn) (ev : pages_event) : Response Exn :=
  match ev with
  | client_event _ => r
  | status_call status =>
      {| res_status := status; res_text := res_text r;
         res_json := res_json r |}
  | send_call body =>
      {| res_status := res_status r; res_text := body;
         res_json := JSON_parse body |}
  end.

Definition header_or_undefined (h : gmap string string) (name : string)
  : unknown :=
  match h !! name with Some v => JString v | None => JUndefined end.

Definition inline_fetch (c : Client Payload Exn) (input : string)
    (init : RequestInit) : error Exn + Response Exn :=
  let req :=
    {| req_body := JString (init_body init);
       req_headers :=
         {[ "x-zeplo-id" := header_or_undefined (init_headers init) "X-Zeplo-Id";
            "x-zeplo-start" :=
              header_or_undefined (init_headers init) "X-Zeplo-Start" ]} |} in
  match pages_handler c req with
  | (inl e, _) => inl e
  | (inr _, events) => inr (foldl mocked_res fetchResponse events)
  end.

(** The runtime in which [fetch] is that loop. *)
Definition inline (c : Client Payload Exn) : Runtime Payload Exn :=
  {| Exn_toString := Exn_toString;
     ZodError_toString := ZodError_toString;
     JSON := JSON;
     JSON_parse := JSON_parse;
     new_Encryptor := new_Encryptor;
     fetch := inline_fetch c;
     v4 := v4;
     Date_now := Date_now |}.

End Adapters.

(** ** More collaborators of the test-suite *)

Module Mock.

(** [JSON.parse] on the texts [[]] and [{"id":"..."}] without escapes. *)
Definition parse_id (s : string) : error string + unknown :=
  if bool_decide (s = "[]") then inr (JArray [])
  else
    match Jest.strip_prefix (Str.to_list ("{" +:+ JSONText.quote "id" +:+ ":"
                                          +:+ Str.dquote))
                            (Str.to_list s)
            ≫= Jest.strip_suffix (Str.to_list (Str.dquote +:+ "}")) with
    | Some v => inr (JObject {[ "id" := JString (Str.of_list v) ]})
    | None => inl (Thrown "SyntaxError: Unexpected token")
    end.

(** The runtime of [Jest] with that parser and a given [fetch]. *)
Definition runtime
    (fetch : string → RequestInit → error string + Response string)
  : Runtime Jest.Foo string :=
  {| Exn_toString := λ value, inr value;
     ZodError_toString := λ issues, "ZodError";
     JSON := Jest.foo_serializer;
     JSON_parse := parse_id;
     new_Encryptor := Jest.toy_Encryptor;
     fetch := fetch;
     v4 := "foo";
     Date_now := 1696486441293 |}.

(** [fetchSpy.mockRejectedValue(new Error("Mock Error"))] *)
Definition offline : Runtime Jest.Foo string :=
  runtime (λ input init, inl (Error "Mock Error")).

Definition online : Runtime Jest.Foo string :=
  runtime (λ input init, inr (Jest.response 200)).

Definition secret : string := "6dea028d912dccf28d5e546141e1c048".

(** [Queue("route", handler, { encryptionSecret })] *)
Definition encrypted_queue : Client Jest.Foo string :=
  {| handler := Jest.resolving; route := "route"; baseUrl := None;
     defaultDelay := None; encryptionSecret := Some secret;
     env := Some "test"; mode := production; defaultRetry := None;
     schema := cast; serializer := Jest.foo_serializer; zeploToken := None;
     oldSecrets := None; apiUrl := "https://zeplo.to";
     encryptor :=
       {| encrypt := λ input, secret +:+ ":" +:+ input;
          decrypt := Jest.toy_decrypt [secret] |} |}.

(** [Queue("route", handler, { delay: 10 })] *)
Definition delayed_queue : Client Jest.Foo string :=
  {| handler := Jest.resolving; route := "route"; baseUrl := None;
     defaultDelay := Some (delay_number (Number.of_Z 10));
     encryptionSecret := None; env := Some "test"; mode := production;
     defaultRetry := None; schema := cast;
     serializer := Jest.foo_serializer; zeploToken := None;
     oldSecrets := None; apiUrl := "https://zeplo.to";
     encryptor := pass_through |}.

(** A direct queue whose handler rejects. *)
Definition rejecting_direct_queue : Client Jest.Foo string :=
  {| handler := Jest.rejecting; route := "route"; baseUrl := None;
     defaultDelay := None; encryptionSecret := None; env := Some "test";
     mode := direct; defaultRetry := None; schema := cast;
     serializer := Jest.foo_serializer; zeploToken := None;
     oldSecrets := None; apiUrl := EmptyString; encryptor := pass_through |}.

End Mock.

(** ** A handler that throws a symbol *)

Module Symbols.

(** What the code around this client throws: a string, a symbol, or a
    [TypeError] of the language. *)
Inductive value : Type :=
| text (s : string)
| symbol (description : string)
| TypeError (message : string).

(** The template literal of a thrown value: a symbol has none, the
    conversion throws a [TypeError]. *)
Definition template_literal (v : value) : value + string :=
  match v with
  | text s => inr s
  | symbol _ => inl (TypeError "Cannot convert a Symbol value to a string")
  | TypeError message => inr ("TypeError: " +:+ message)
  end.


(** Payloads that are strings, written as they are. *)
Definition plain : Serializer string value :=
  {| stringify := λ payload, payload; serializer_parse := inr |}.

Definition runtime : Runtime string value :=
  {| Exn_toString := template_literal;
     ZodError_toString := λ issues, "ZodError";
     JSON := plain;
     JSON_parse := λ s, inl (Thrown (text "SyntaxError: Unexpected token"));
     new_Encryptor := λ secret oldSecrets,
       inl (Error "secret needs to be 32 characters long");
     fetch := λ input init, inl (Error "fetch failed");
     v4 := "foo";
     Date_now := 1696486441293 |}.

(** [async () => { throw Symbol("boom"); }] *)
Definition throwing : Handler string value :=
  λ payload meta, inl (Thrown (symbol "boom")).

(** [Queue("route", handler)] with that handler. *)
Definition queue : Client string value :=
  {| handler := throwing; route := "route"; baseUrl := None;
     defaultDelay := None; encryptionSecret := None; env := Some "test";
     mode := production; defaultRetry := None; schema := cast;
     serializer := plain; zeploToken := None; oldSecrets := None;
     apiUrl := "https://zeplo.to"; encryptor := pass_through |}.

Definition delivery_headers : gmap string unknown :=
  {[ "x-zeplo-id" := JString "foo"; "x-zeplo-start" := JString "1" ]}.

End Symbols.

(** ** Vocabulary of the further properties *)

(** How often the character [c] occurs in [s]. *)
Definition occurrences (c : ascii) (s : string) : nat :=
  length (List.filter (Ascii.eqb c) (Str.to_list s)).

(** The names a request may carry, in the order they are written. *)
Definition parameter_names : list string :=
  ["_env"; "_trace"; "_delay"; "_delay_until"; "_retry"].

(** The four characters that delimit a query string and its parts. *)
Definition delimiter (ch : ascii) : Prop :=
  ch = "&"%char ∨ ch = "="%char ∨ ch = "?"%char ∨ ch = "#"%char.

(** A text that cannot continue a decimal numeral: it is empty, or it
    begins with a character other than a digit, [.], [e] and [E]. *)
Definition stops_numeral (rest : string) : bool :=
  match rest with
  | EmptyString => true
  | String ch _ =>
      match Number.digit_of ch with
      | Some _ => false
      | None =>
          negb (Ascii.eqb ch "."%char || Ascii.eqb ch "e"%char
                || Ascii.eqb ch "E"%char)
      end
  end.

(** The value of the digits of [d] read after [acc], most significant
    digit first, and their number. *)
Fixpoint uint_value (d : Decimal.uint) (acc : N) : N :=
  match d with
  | Decimal.Nil => acc
  | Decimal.D0 d => uint_value d (acc * 10)
  | Decimal.D1 d => uint_value d (acc * 10 + 1)
  | Decimal.D2 d => uint_value d (acc * 10 + 2)
  | Decimal.D3 d => uint_value d (acc * 10 + 3)
  | Decimal.D4 d => uint_value d (acc * 10 + 4)
  | Decimal.D5 d => uint_value d (acc * 10 + 5)
  | Decimal.D6 d => uint_value d (acc * 10 + 6)
  | Decimal.D7 d => uint_value d (acc * 10 + 7)
  | Decimal.D8 d => uint_value d (acc * 10 + 8)
  | Decimal.D9 d => uint_value d (acc * 10 + 9)
  end%N.

(** ** What the specification says, in its own words *)

(** "Joining, with [/], the non-empty members of [[apiUrl, baseUrl,
    route]] in order, omitting empty segments." *)
Definition joined_segments {Payload Exn} (c : Client Payload Exn) : string :=
  Str.join "/"
    (List.filter Str.truthy [apiUrl c; default EmptyString (baseUrl c); route c]).

(** "Exactly one of {token header, direct-mode identity headers} is
    present, never both", and never neither. *)
Definition exactly_one_identity (h : gmap string string) : Prop :=
  (is_Some (h !! "X-Zeplo-Token")
   ∧ h !! "X-Zeplo-Id" = None ∧ h !! "X-Zeplo-Start" = None)
  ∨ (h !! "X-Zeplo-Token" = None
     ∧ is_Some (h !! "X-Zeplo-Id") ∧ is_Some (h !! "X-Zeplo-Start")).


(** * Properties *)

(** ** Examples from the test-suite *)

Example toString_examples :
  map Number.toString
      [ Number.of_Z 3; Number.of_Z 10; Number.of_Z (-42); Number.of_Z 0;
        Number.Finite false 5 (-1); Number.Finite false 1 21;
        Number.Finite false 123 (-9); Number.Finite false 1696486441293 (-3);
        Number.Finite false 12 20; Number.Finite false 1200 (-2) ]
  = [ "3"; "10"; "-42"; "0"; "0.5"; "1e+21"; "1.23e-7"; "1696486441.293";
      "1.2e+21"; "12" ].
Proof. vm_compute. reflexivity. Qed.

Example parseFloat_examples :
  map Number.parseFloat
      [ "1970-01-01T00:32:50.000Z"; "1696486441.293"; "  -1.5e3x"; "abc";
        ".5"; "5."; "1e"; "-Infinity"; EmptyString; "." ]
  = [ Number.Finite false 1970 0; Number.Finite false 1696486441293 (-3);
      Number.Finite true 15 2; Number.NaN;
      Number.Finite false 5 (-1); Number.Finite false 5 0;
      Number.Finite false 1 0; Number.Infinity true; Number.NaN; Number.NaN ].
Proof. vm_compute. reflexivity. Qed.

(** The start date of a delivery: the product is rounded to binary64
    before the date truncates it, and white space before the numeral is
    skipped, also outside ASCII. *)
Example start_date_examples :
  map start_date
      [ "1.001"; "1696486441.293"; "2150759265.305";
        String (ascii_of_nat 194) (String (ascii_of_nat 160) "12");
        "soon"; "1e400"; "8640000000000.001" ]
  = [ Date.Time 1000; Date.Time 1696486441293; Date.Time 2150759265304;
      Date.Time 12000; Date.Invalid; Date.Invalid; Date.Invalid ].
Proof. vm_compute. reflexivity. Qed.

(** A clock value that the start header of [direct] mode does not give
    back: the handler sees the millisecond before. *)
Example start_header_loses_a_millisecond :
  let now := 2150759265305 in
  let header := Number.toString (Number.div1000 (Number.of_Z now)) in
  header = "2150759265.305" ∧ start_date header = Date.Time (now - 1).
Proof. vm_compute. by split. Qed.

Example encode_examples :
  map URLSearchParams.encode ["3|fixed|4"; "a b"; "1e+21"; "x-y_z.*~"]
  = ["3%7Cfixed%7C4"; "a+b"; "1e%2B21"; "x-y_z.*%7E"].
Proof. vm_compute. reflexivity. Qed.

Example queue_declared :
  ZeploClient (runtime := Jest.runtime 200) Jest.resolving "route" None
              Jest.process_env = inr Jest.queue.
Proof. vm_compute. reflexivity. Qed.

Example direct_queue_declared :
  ZeploClient (runtime := Jest.runtime 200) Jest.resolving "route"
    (Some {| opt_apiUrl := None; opt_baseUrl := None; opt_delay := None;
             opt_encryptionSecret := None; opt_env := None;
             opt_mode := Some direct; opt_oldSecrets := None;
             opt_retry := None; opt_schema := None; opt_serializer := None;
             opt_token := None |})
    Jest.process_env = inr Jest.direct_queue.
Proof. vm_compute. reflexivity. Qed.

Example successfully_calls_endpoint :
  run (enqueue (runtime := Jest.runtime 200) Jest.queue Jest.bar None)
  = (inr {| id := "foo" |},
     [fetch_call "https://zeplo.to/route?_env=test"
        {| init_cache := "no-store"; init_method := "POST";
           init_credentials := "omit";
           init_body := Jest.foo_open +:+ "bar" +:+ Jest.foo_close;
           init_headers := ∅ |}]).
Proof. vm_compute. reflexivity. Qed.

Example returns_a_500_on_handler_error :
  let c := {| handler := Jest.rejecting; route := "route"; baseUrl := None;
     defaultDelay := None; encryptionSecret := None; env := Some "test";
     mode := production; defaultRetry := None; schema := cast;
     serializer := Jest.foo_serializer; zeploToken := None;
     oldSecrets := None; apiUrl := "https://zeplo.to";
     encryptor := pass_through |} in
  (run (respondTo (runtime := Jest.runtime 200) c
                  (JString (stringify Jest.foo_serializer Jest.bar))
                  Jest.delivery_headers)).1
  = inr {| status := 500; body := body_string "Error: Mock Error" |}.
Proof. vm_compute. reflexivity. Qed.

Example includes_delay_trace_and_retry :
  map (λ o, request_input Jest.queue (effective_options Jest.queue (Some o)))
    [ {| trace := None; delay := Some (delay_number (Number.of_Z 10));
         retry := None |};
      {| trace := None; delay := Some (delay_date (Date.Time 1970000));
         retry := None |};
      {| trace := Some "foo"; delay := None; retry := None |};
      {| trace := None; delay := None;
         retry := Some (retry_number (Number.of_Z 3)) |};
      {| trace := None; delay := None;
         retry := Some (retry_object None (Number.of_Z 3)) |};
      {| trace := None; delay := None;
         retry := Some (retry_object (Some immediate) (Number.of_Z 3)) |};
      {| trace := None; delay := None;
         retry := Some (retry_object (Some approach_immediate)
                                     (Number.of_Z 3)) |};
      {| trace := None; delay := None;
         retry := Some (retry_object (Some (approach_fixed (Number.of_Z 4)))
                                     (Number.of_Z 3)) |};
      {| trace := None; delay := None;
         retry := Some (retry_object
                          (Some (approach_exponential (Number.of_Z 4)))
                          (Number.of_Z 3)) |} ]
  = [ "https://zeplo.to/route?_env=test&_delay=10";
      "https://zeplo.to/route?_env=test&_delay_until=1970000";
      "https://zeplo.to/route?_env=test&_trace=foo";
      "https://zeplo.to/route?_env=test&_retry=3";
      "https://zeplo.to/route?_env=test&_retry=3";
      "https://zeplo.to/route?_env=test&_retry=3%7Cimmediate";
      "https://zeplo.to/route?_env=test&_retry=3%7Cimmediate";
      "https://zeplo.to/route?_env=test&_retry=3%7Cfixed%7C4";
      "https://zeplo.to/route?_env=test&_retry=3%7Cexponential%7C4" ].
Proof. vm_compute. reflexivity. Qed.

Example removes_apiUrl_with_mode_direct :
  (run (enqueue (runtime := Jest.runtime 200)
                Jest.direct_queue Jest.bar None)).2
  = [fetch_call "/route?_env=test"
       {| init_cache := "no-store"; init_method := "POST";
          init_credentials := "omit";
          init_body := Jest.foo_open +:+ "bar" +:+ Jest.foo_close;
          init_headers := {[ "X-Zeplo-Id" := "foo-iow";
                             "X-Zeplo-Start" := "1696486441.293" ]} |}].
Proof. vm_compute. reflexivity. Qed.

Example decrypts_with_a_rotated_secret :
  let old := "6dea028d912dccf28d5e546141e1c048" in
  let new := "0123456789abcdef0123456789abcdef" in
  match Jest.toy_Encryptor old None, Jest.toy_Encryptor new (Some [old]) with
  | inr before, inr after =>
      decrypt after (encrypt before "payload") = inr "payload"
  | _, _ => False
  end.
Proof. vm_compute. reflexivity. Qed.

(** ** Strings and query strings *)

Lemma append_cons (x : ascii) (a b : string) :
  String x a +:+ b = String x (a +:+ b).
Proof. reflexivity. Qed.

Lemma append_nil_l (a : string) : EmptyString +:+ a = a.
Proof. reflexivity. Qed.

Lemma append_assoc (a b c : string) : (a +:+ b) +:+ c = a +:+ b +:+ c.
Proof.
  induction a as [|x a IH]; [done|].
  rewrite !append_cons. by f_equal.
Qed.

Lemma append_nil_r (a : string) : a +:+ EmptyString = a.
Proof.
  induction a as [|x a IH]; [done|]. rewrite append_cons. by f_equal.
Qed.

Lemma startsWith_app (p post : string) : Str.startsWith p (p +:+ post) = true.
Proof.
  induction p as [|a p IH]; [done|].
  rewrite append_cons. simpl. by rewrite Ascii.eqb_refl, IH.
Qed.

Lemma contains_includes (needle hay : string) :
  Str.contains needle hay → Str.includes needle hay = true.
Proof.
  intros (pre & post & ->).
  induction pre as [|a pre IH].
  - rewrite append_nil_l.
    destruct (needle +:+ post) eqn:E; simpl; rewrite <- E;
      by rewrite startsWith_app.
  - rewrite append_cons. simpl. rewrite IH. apply orb_true_r.
Qed.

Lemma contains_here (needle post : string) :
  Str.contains needle (needle +:+ post).
Proof. by exists EmptyString, post. Qed.

Lemma contains_append_l (needle pre hay : string) :
  Str.contains needle hay → Str.contains needle (pre +:+ hay).
Proof.
  intros (a & b & ->). exists (pre +:+ a), b. by rewrite append_assoc.
Qed.

Lemma contains_append_r (needle hay post : string) :
  Str.contains needle hay → Str.contains needle (hay +:+ post).
Proof.
  intros (a & b & ->). exists a, (b +:+ post). by rewrite !append_assoc.
Qed.

(** Every entry of the parameters is written into the query string. *)
Lemma toString_contains (entries : list (string * string)) p :
  p ∈ entries →
  Str.contains (URLSearchParams.pair_toString p)
               (URLSearchParams.toString entries).
Proof.
  unfold URLSearchParams.toString.
  induction entries as [|q [|r rest] IH]; intros Hin.
  - by apply elem_of_nil in Hin.
  - apply list_elem_of_singleton in Hin as ->. simpl.
    exists EmptyString, EmptyString. by rewrite append_nil_r.
  - apply elem_of_cons in Hin as [->|Hin].
    + apply contains_here.
    + change (Str.contains (URLSearchParams.pair_toString p)
                (URLSearchParams.pair_toString q +:+ "&" +:+
                 Str.join "&" (map URLSearchParams.pair_toString (r :: rest)))).
      apply contains_append_l, contains_append_l, IH, Hin.
Qed.

(** ** The client *)

Section Properties.

Context {Payload Exn : Type} {runtime : Runtime Payload Exn}.

Implicit Types (c : Client Payload Exn) (payload : Payload).
Implicit Types (options : option EnqueueOptions).

(** Unfolds the operations of [Async]. *)
Ltac async :=
  unfold run, try_catch, mbind, mret, Async_bind, Async_ret, lift, emit, throw;
  simpl.

(** [enqueue] calls [fetch] once, and does nothing else that is observed. *)
Lemma enqueue_events c payload options :
  (run (enqueue c payload options)).2
  = [fetch_call (request_input c (effective_options c options))
                (request_init c (stringify (serializer c) payload))].
Proof.
  unfold enqueue. async.
  destruct (fetch _ _) as [e|res]; [done|].
  destruct (400 <=? res_status res); [done|].
  destruct (res_json res) as [e|json]; [done|].
  by destruct (zod_parse _).
Qed.

(** The outcome of [enqueue], from the answer of [fetch]. *)
Lemma enqueue_outcome c payload options :
  let text := stringify (serializer c) payload in
  (run (enqueue c payload options)).1
  = match fetch (request_input c (effective_options c options))
                (request_init c text) with
    | inl e => inl e
    | inr res =>
        if 400 <=? res_status res then
          inl (Error (unexpected_response text (target_url c) (res_text res)))
        else
          match res_json res with
          | inl e => inl e
          | inr json =>
              match zod_parse (z.object1 "id" z.string [] json) with
              | inl e => inl e
              | inr i => inr {| id := i |}
              end
          end
    end.
Proof.
  unfold enqueue. async.
  destruct (fetch _ _) as [e|res]; [done|].
  destruct (400 <=? res_status res); [done|].
  destruct (res_json res) as [e|json]; [done|].
  by destruct (zod_parse _).
Qed.

(** Reading the parameters that [enqueue] writes. *)
Lemma search_params_get c (o : EnqueueOptions) :
  let ps := search_params c o in
  URLSearchParams.get ps "_env" = Some (template (env c))
  ∧ URLSearchParams.get ps "_trace"
    = (if truthy_string (trace o) then trace o else None)
  ∧ URLSearchParams.get ps "_delay"
    = match delay o with
      | Some (delay_number d) =>
          if Number.truthy d then Some (Number.toString d) else None
      | _ => None
      end
  ∧ URLSearchParams.get ps "_delay_until"
    = match delay o with
      | Some (delay_date d) => Some (Number.toString (Date.valueOf d))
      | _ => None
      end
  ∧ URLSearchParams.get ps "_retry"
    = match retry o with
      | Some r => if truthy_retry (Some r) then Some (retry_value r) else None
      | None => None
      end.
Proof.
  unfold search_params, trace_params, delay_params, retry_params.
  destruct o as [[[|a t]|] [[d|d]|] [r|]];
    cbn [trace delay retry truthy_string Str.truthy];
    try destruct (Number.truthy d); try destruct (truthy_retry (Some r));
    repeat split; reflexivity.
Qed.

(** *** Configuration *)

(** C9. Without an [apiUrl] option and without [ZEPLO_API_URL], the
    endpoint is the one of the mode: empty for [direct],
    [http://localhost:4747] for [dev-server], [https://zeplo.to] for
    [production] (the default mode).  The variable overrides the mode,
    and the option overrides both. *)
Theorem apiUrl_precedence (h : Handler Payload Exn) (r : string)
    (options : option (Options Payload Exn))
    (process_env : gmap string string) c :
  ZeploClient h r options process_env = inr c →
  let o := default no_options options in
  mode c = default production (opt_mode o)
  ∧ mode_apiUrl direct = EmptyString
  ∧ mode_apiUrl dev_server = "http://localhost:4747"
  ∧ mode_apiUrl production = "https://zeplo.to"
  ∧ apiUrl c =
      match opt_apiUrl o, process_env !! "ZEPLO_API_URL" with
      | Some explicit, _ => explicit
      | None, Some variable => variable
      | None, None => mode_apiUrl (mode c)
      end.
Proof.
  intros H o. unfold ZeploClient in H. fold o in H.
  destruct (match opt_oldSecrets _ with Some _ => _ | None => _ end)
    as [e|old]; [done|].
  destruct (make_encryptor _ _) as [e|enc]; [done|].
  injection H as <-. simpl. fold o.
  unfold default_apiUrl.
  by destruct (opt_apiUrl o), (process_env !! "ZEPLO_API_URL").
Qed.

(** *** The request *)

(** C4. The value of [_retry]: a bare count, or a count without backoff,
    is written as the count; with a backoff, the count is followed by
    [|immediate], [|fixed|interval] or [|exponential|exponent].  This
    value is the [_retry] parameter of the request whenever the retry is
    truthy (a bare count of zero or NaN sends no [_retry]). *)
Theorem retry_serialization (n i e : number) c (o : EnqueueOptions) :
  retry_value (retry_number n) = Number.toString n
  ∧ retry_value (retry_object None n) = Number.toString n
  ∧ retry_value (retry_object (Some immediate) n)
    = Number.toString n +:+ "|immediate"
  ∧ retry_value (retry_object (Some (approach_fixed i)) n)
    = Number.toString n +:+ "|fixed|" +:+ Number.toString i
  ∧ retry_value (retry_object (Some (approach_exponential e)) n)
    = Number.toString n +:+ "|exponential|" +:+ Number.toString e
  ∧ URLSearchParams.get (search_params c o) "_retry"
    = match retry o with
      | Some r => if truthy_retry (Some r) then Some (retry_value r) else None
      | None => None
      end.
Proof.
  repeat split. apply search_params_get.
Qed.

(** The serialized retry is what the request carries as [_retry]. *)
Lemma retry_in_query c (o : EnqueueOptions) (r : Retry) :
  retry o = Some r → truthy_retry (Some r) = true →
  Str.contains ("_retry=" +:+ URLSearchParams.encode (retry_value r))
               (request_input c o).
Proof.
  intros Hr Ht. unfold request_input.
  do 2 apply contains_append_l.
  apply (toString_contains _ ("_retry", retry_value r)).
  unfold search_params, retry_params. rewrite Hr, Ht.
  do 3 (apply elem_of_app; right). by apply list_elem_of_singleton.
Qed.

(** C3, as the code has it.  The request goes to the target followed by
    [?] and the query string.  The target is the non-empty members of
    [[apiUrl, baseUrl]] joined with [/], then [/], then the route:
    [apiUrl/baseUrl/route], [apiUrl/route], [baseUrl/route] or [/route].
    With at least one of [apiUrl] and [baseUrl] non-empty this is the
    join of the non-empty members of [[apiUrl, baseUrl, route]] when the
    route is not empty, and that join followed by [/] when it is; with
    both empty it is [/] followed by the route, where the join is the
    route alone. *)
Theorem enqueue_target_url c payload options :
  let api := apiUrl c in
  let base := default EmptyString (baseUrl c) in
  (run (enqueue c payload options)).2
  = [fetch_call
       (target_url c +:+ "?"
        +:+ URLSearchParams.toString
              (search_params c (effective_options c options)))
       (request_init c (stringify (serializer c) payload))]
  ∧ target_url c
    = Str.join "/" (List.filter Str.truthy [api; base]) +:+ "/" +:+ route c
  ∧ target_url c
    = match Str.truthy api, Str.truthy base with
      | true, true => api +:+ "/" +:+ base +:+ "/" +:+ route c
      | true, false => api +:+ "/" +:+ route c
      | false, true => base +:+ "/" +:+ route c
      | false, false => "/" +:+ route c
      end
  ∧ if Str.truthy api || Str.truthy base
    then target_url c
         = (if Str.truthy (route c) then joined_segments c
            else joined_segments c +:+ "/")
    else target_url c = "/" +:+ route c ∧ joined_segments c = route c.
Proof.
  intros api base. split; [by rewrite enqueue_events|].
  unfold api, base, target_url, joined_segments, url_prefix. simpl.
  destruct (apiUrl c) as [|a api'], (baseUrl c) as [[|b base']|],
    (route c) as [|x rt]; simpl;
    rewrite ?append_assoc, ?append_nil_r; done.
Qed.

(** C2, as the code has it.  In [direct] mode the request carries the two
    identity headers and no token; in the other modes it carries no
    identity header, and the token header exactly when a non-empty token
    is configured; the token and the identity headers are never sent
    together.  With no token outside [direct] mode the headers are empty. *)
Theorem enqueue_identity_headers c payload options :
  ∃ input init,
    (run (enqueue c payload options)).2 = [fetch_call input init]
    ∧ let h := init_headers init in
      match mode c with
      | direct =>
          h = {[ "X-Zeplo-Id" := v4 +:+ "-iow";
                 "X-Zeplo-Start" :=
                   Number.toString (Number.div1000 (Number.of_Z Date_now)) ]}
          ∧ exactly_one_identity h
      | _ =>
          if truthy_string (zeploToken c)
          then h = {[ "X-Zeplo-Token" := template (zeploToken c) ]}
               ∧ exactly_one_identity h
          else h = ∅
      end
      ∧ ¬ (is_Some (h !! "X-Zeplo-Token") ∧ is_Some (h !! "X-Zeplo-Id")).
Proof.
  eexists _, _. split; [apply enqueue_events|]. simpl.
  unfold request_headers, exactly_one_identity.
  destruct (mode c); [destruct (truthy_string (zeploToken c))| |
                      destruct (truthy_string (zeploToken c))];
    simplify_map_eq; repeat split; eauto;
    intros [[? ?] [? ?]]; simplify_map_eq.
Qed.

(** C5, as the code has it.  [_env] is always sent.  [_trace] is sent
    exactly when the trace is a non-empty string.  A numeric delay [d]
    other than zero and NaN is sent as [_delay], with the decimal string
    of [d]; a numeric delay of zero or NaN sends no delay parameter.  A
    [Date] is sent as [_delay_until], with the decimal string of its time
    value.  Each parameter is written [name=value], form-urlencoded, in
    the query string that follows the target and [?]. *)
Theorem enqueue_query_parameters c payload options :
  let o := effective_options c options in
  let ps := search_params c o in
  let query := URLSearchParams.toString ps in
  (∃ init, (run (enqueue c payload options)).2
           = [fetch_call (target_url c +:+ "?" +:+ query) init])
  ∧ (∀ name value, URLSearchParams.get ps name = Some value →
       Str.contains
         (URLSearchParams.encode name +:+ "=" +:+ URLSearchParams.encode value)
         query)
  ∧ URLSearchParams.get ps "_env" = Some (template (env c))
  ∧ URLSearchParams.get ps "_trace"
    = (if truthy_string (trace o) then trace o else None)
  ∧ match delay o with
    | Some (delay_number d) =>
        URLSearchParams.get ps "_delay"
        = (if Number.truthy d then Some (Number.toString d) else None)
        ∧ URLSearchParams.get ps "_delay_until" = None
    | Some (delay_date d) =>
        URLSearchParams.get ps "_delay" = None
        ∧ URLSearchParams.get ps "_delay_until"
          = Some (Number.toString (Date.valueOf d))
    | None =>
        URLSearchParams.get ps "_delay" = None
        ∧ URLSearchParams.get ps "_delay_until" = None
    end.
Proof.
  intros o ps query.
  destruct (search_params_get c o) as (Henv & Htrace & Hdelay & Huntil & _).
  fold ps in Henv, Htrace, Hdelay, Huntil.
  split; [|split; [|split; [done|split; [done|]]]].
  - eexists. rewrite enqueue_events. reflexivity.
  - intros name value Hget. unfold URLSearchParams.get in Hget.
    destruct (List.find _ ps) as [[k v]|] eqn:Hfind; [|done].
    apply find_some in Hfind as [Hin Hk]. simpl in Hget, Hk.
    apply bool_decide_eq_true in Hk. injection Hget as <-. subst k.
    apply (toString_contains ps (name, v)). by apply list_elem_of_In.
  - rewrite Hdelay, Huntil. by destruct (delay o) as [[d|d]|].
Qed.

(** *** The response of the service *)

(** C6. When the service answers with a status of 400 or more, [enqueue]
    rejects with the [Error] built on line 209, whose message holds the
    serialized payload, the target and the text of the response; nothing
    in [enqueue] catches it. *)
Theorem enqueue_rejects_on_error_status c payload options (res : Response Exn) :
  let text := stringify (serializer c) payload in
  fetch (request_input c (effective_options c options)) (request_init c text)
  = inr res →
  400 ≤ res_status res →
  ∃ message,
    (run (enqueue c payload options)).1 = inl (Error message)
    ∧ message = unexpected_response text (target_url c) (res_text res)
    ∧ Str.contains text message
    ∧ Str.contains (target_url c) message
    ∧ Str.contains (res_text res) message.
Proof.
  intros text Hfetch Hstatus. eexists. split; [|split; [reflexivity|]].
  - rewrite enqueue_outcome. fold text. rewrite Hfetch.
    by rewrite (proj2 (Z.leb_le 400 (res_status res)) Hstatus).
  - unfold unexpected_response. repeat split.
    + do 2 apply contains_append_l. apply contains_here.
    + do 5 apply contains_append_l. apply contains_here.
    + do 7 apply contains_append_l. exists EmptyString, EmptyString.
      by rewrite append_nil_r.
Qed.

(** C7. A client made by [ZeploClient] posts once.  The body is the
    serialized payload when the secret is absent or empty, and its
    encryption by the [Encryptor] of the secret and the old secrets
    otherwise.  When the status is below 400 and the JSON of the response
    is an object whose [id] is a string, [enqueue] resolves with that
    [{ id }]; with any other JSON it rejects with a [ZodError]. *)
Theorem enqueue_posts_once (h : Handler Payload Exn) (r : string)
    (opts : option (Options Payload Exn)) (process_env : gmap string string)
    c payload options :
  ZeploClient h r opts process_env = inr c →
  let text := stringify (serializer c) payload in
  ∃ input init,
    (run (enqueue c payload options)).2 = [fetch_call input init]
    ∧ init_method init = "POST"
    ∧ (if truthy_string (encryptionSecret c)
       then ∃ E, new_Encryptor (template (encryptionSecret c)) (oldSecrets c)
                 = inr E
                 ∧ init_body init = encrypt E text
       else init_body init = text)
    ∧ ∀ res json, fetch input init = inr res → res_status res < 400 →
        res_json res = inr json →
        (∀ o i, json = JObject o → o !! "id" = Some (JString i) →
           (run (enqueue c payload options)).1 = inr {| id := i |})
        ∧ ((∀ o i, json = JObject o → o !! "id" ≠ Some (JString i)) →
           ∃ issues,
             (run (enqueue c payload options)).1 = inl (ZodError issues)).
Proof.
  intros Hc text. eexists _, _.
  split; [apply enqueue_events|]. split; [done|]. split.
  - unfold ZeploClient in Hc.
    destruct (match opt_oldSecrets _ with Some _ => _ | None => _ end)
      as [e|old]; [done|].
    destruct (make_encryptor _ _) as [e|enc] eqn:Henc; [done|].
    injection Hc as <-. simpl. unfold make_encryptor in Henc.
    destruct (truthy_string _); [by eexists|by injection Henc as <-].
  - intros res json Hfetch Hstatus Hjson.
    rewrite enqueue_outcome. cbv zeta. unfold text. rewrite Hfetch.
    rewrite (proj2 (Z.leb_gt 400 (res_status res)) Hstatus).
    rewrite Hjson. split.
    + intros o i -> Hid. unfold z.object1, get_property. by rewrite Hid.
    + intros Hno. destruct json as [| |b|n|s|l|o];
        try (by eexists; simpl).
      unfold z.object1, get_property.
      destruct (o !! "id") as [[| |b|n|s|l|o']|] eqn:Hid;
        try (by eexists; simpl).
      by destruct (Hno o s).
Qed.

(** *** Deliveries *)

(** The headers are accepted exactly when both are strings. *)
Lemma headers_parse_valid (headers : gmap string unknown) jobId start :
  headers !! "x-zeplo-id" = Some (JString jobId) →
  headers !! "x-zeplo-start" = Some (JString start) →
  z.shape2 "x-zeplo-id" z.string "x-zeplo-start" z.string [] headers
  = inr (jobId, start).
Proof.
  intros H1 H2. unfold z.shape2, get_property. by rewrite H1, H2.
Qed.

Lemma headers_parse_invalid (headers : gmap string unknown) :
  (∀ s, headers !! "x-zeplo-id" ≠ Some (JString s))
  ∨ (∀ s, headers !! "x-zeplo-start" ≠ Some (JString s)) →
  ∃ issues,
    z.shape2 "x-zeplo-id" z.string "x-zeplo-start" z.string [] headers
    = inl issues.
Proof.
  unfold z.shape2, get_property. intros H.
  destruct (headers !! "x-zeplo-id") as [[| |b|n|s|l|o]|],
    (headers !! "x-zeplo-start") as [[| |b'|n'|s'|l'|o']|];
    simpl; eauto; destruct H as [H|H]; by edestruct H.
Qed.

Lemma headers_valid_or_not (headers : gmap string unknown) :
  (∃ jobId start,
     headers !! "x-zeplo-id" = Some (JString jobId)
     ∧ headers !! "x-zeplo-start" = Some (JString start))
  ∨ ((∀ s, headers !! "x-zeplo-id" ≠ Some (JString s))
     ∨ (∀ s, headers !! "x-zeplo-start" ≠ Some (JString s))).
Proof.
  destruct (headers !! "x-zeplo-id") as [[| |b|n|s|l|o]|];
    try (right; left; intros ?; discriminate).
  destruct (headers !! "x-zeplo-start") as [[| |b'|n'|s'|l'|o']|];
    try (right; right; intros ?; discriminate).
  left. eauto.
Qed.

Lemma body_string_or_not (rawBody : unknown) :
  (∃ text, rawBody = JString text) ∨ (∀ text, rawBody ≠ JString text).
Proof. destruct rawBody; eauto. Qed.


(** C10. With both headers valid, a body that is not a string is
    answered with status 500 and the string of the [ZodError], which is
    logged; the handler is not called. *)
Theorem respondTo_requires_string_body c rawBody headers jobId start :
  headers !! "x-zeplo-id" = Some (JString jobId) →
  headers !! "x-zeplo-start" = Some (JString start) →
  (∀ text, rawBody ≠ JString text) →
  ∃ e,
    e = ZodError [z.invalid_type [] z.t_string (z.getParsedType rawBody)]
    ∧ String_error e
      = inr (ZodError_toString
               [z.invalid_type [] z.t_string (z.getParsedType rawBody)])
    ∧ run (respondTo c rawBody headers)
      = (inr {| status := 500;
                body := body_string
                          (ZodError_toString
                             [z.invalid_type [] z.t_string
                                (z.getParsedType rawBody)]) |},
         [console_error e])
    ∧ ∀ payload meta,
        handler_call payload meta ∉ (run (respondTo c rawBody headers)).2.
Proof.
  intros H1 H2 Hbody. eexists. split; [reflexivity|]. split; [reflexivity|].
  assert (run (respondTo c rawBody headers)
          = (inr {| status := 500;
                    body := body_string (ZodError_toString
                      [z.invalid_type [] z.t_string
                         (z.getParsedType rawBody)]) |},
             [console_error (ZodError
                [z.invalid_type [] z.t_string (z.getParsedType rawBody)])]))
    as Hrun.
  { unfold respondTo.
    rewrite (headers_parse_valid headers jobId start H1 H2).
    destruct rawBody; try done. by destruct (Hbody s). }
  split; [done|]. intros payload meta. rewrite Hrun. simpl.
  intros Hin. apply list_elem_of_singleton in Hin. discriminate.
Qed.

(** C8, as the code has it.  The start header of the test-suite reads as
    1970 (the digits before the first [-]), so the handler is called with
    the start date of time value 1970000, which is
    [1970-01-01T00:32:50.000Z], and with the job id ["foo"]; the answer is
    status 200 with [{ id: "foo" }]. *)
Theorem respondTo_round_trip c payload :
  encryptor c = pass_through →
  schema c = cast →
  serializer_parse (serializer c) (stringify (serializer c) payload)
  = inr payload →
  let meta := {| jobId := "foo"; start := Date.Time 1970000 |} in
  handler c payload meta = inr () →
  Number.parseFloat "1970-01-01T00:32:50.000Z" = Number.of_Z 1970
  ∧ start_date "1970-01-01T00:32:50.000Z" = Date.Time (1970 * 1000)
  ∧ run (respondTo c (JString (stringify (serializer c) payload))
                   Jest.delivery_headers)
    = (inr {| status := 200; body := body_object {| id := "foo" |} |},
       [handler_call payload meta]).
Proof.
  intros Henc Hschema Hparse meta Hhandler.
  split; [by vm_compute|]. split; [by vm_compute|].
  unfold respondTo.
  rewrite (headers_parse_valid Jest.delivery_headers "foo"
             "1970-01-01T00:32:50.000Z") by done.
  async. rewrite Henc, Hschema. simpl. rewrite Hparse. simpl.
  change (start_date "1970-01-01T00:32:50.000Z") with (Date.Time 1970000).
  fold meta. by rewrite Hhandler.
Qed.

End Properties.

(** ** The test-suite's queue *)


(** C2 does not hold as stated: the queue of the test-suite has no token
    and is not in [direct] mode, and its request carries no header at
    all ([headers: {}] in the test-suite). *)
Lemma headers_empty_without_token :
  ∃ init,
    (run (enqueue (runtime := Jest.runtime 200) Jest.queue Jest.bar None)).2
    = [fetch_call "https://zeplo.to/route?_env=test" init]
    ∧ mode Jest.queue = production
    ∧ init_headers init = ∅
    ∧ ¬ exactly_one_identity (init_headers init).
Proof.
  eexists. split; [by vm_compute|]. split; [done|]. split; [done|].
  unfold exactly_one_identity.
  intros [([? H] & _)|(_ & [? H] & _)]; vm_compute in H; discriminate.
Qed.

(** C3 does not hold as stated: in [direct] mode, with [apiUrl] empty and
    no [baseUrl], the target is [/route], not the route alone. *)
Lemma direct_target_keeps_the_slash :
  apiUrl Jest.direct_queue = EmptyString
  ∧ baseUrl Jest.direct_queue = None
  ∧ route Jest.direct_queue = "route"
  ∧ joined_segments Jest.direct_queue = "route"
  ∧ target_url Jest.direct_queue = "/route"
  ∧ target_url Jest.direct_queue ≠ joined_segments Jest.direct_queue
  ∧ ∃ init,
      (run (enqueue (runtime := Jest.runtime 200)
                    Jest.direct_queue Jest.bar None)).2
      = [fetch_call "/route?_env=test" init].
Proof.
  repeat split; try done.
  eexists. by vm_compute.
Qed.

(** C5 does not hold as stated: a delay of zero is a plain number, and
    the request has no [_delay] parameter. *)
Lemma zero_delay_is_not_sent :
  let options :=
    Some {| trace := None; delay := Some (delay_number (Number.of_Z 0));
            retry := None |} in
  ∃ input init,
    (run (enqueue (runtime := Jest.runtime 200)
                  Jest.queue Jest.bar options)).2
    = [fetch_call input init]
    ∧ input = "https://zeplo.to/route?_env=test"
    ∧ ¬ Str.contains "_delay=0" input.
Proof.
  eexists _, _. split; [by vm_compute|]. split; [done|].
  by intros H%contains_includes.
Qed.

(** C8 does not hold as stated: the start header reads as 1970 seconds,
    not 2790, and the handler is called with the date of time value
    1970000, not 2790000. *)
Lemma start_is_not_2790_seconds :
  let result :=
    run (respondTo (runtime := Jest.runtime 200) Jest.queue
           (JString (stringify Jest.foo_serializer Jest.bar))
           Jest.delivery_headers) in
  Number.parseFloat "1970-01-01T00:32:50.000Z" = Number.of_Z 1970
  ∧ result.1 = inr {| status := 200; body := body_object {| id := "foo" |} |}
  ∧ result.2
    = [handler_call Jest.bar {| jobId := "foo"; start := Date.Time 1970000 |}]
  ∧ handler_call Jest.bar {| jobId := "foo"; start := Date.Time 2790000 |}
    ∉ result.2.
Proof.
  assert (run (respondTo (runtime := Jest.runtime 200) Jest.queue
                 (JString (stringify Jest.foo_serializer Jest.bar))
                 Jest.delivery_headers)
          = (inr {| status := 200; body := body_object {| id := "foo" |} |},
             [handler_call Jest.bar
                {| jobId := "foo"; start := Date.Time 1970000 |}])) as Hrun
    by (by vm_compute).
  intros result. subst result. rewrite Hrun. simpl.
  split; [by vm_compute|]. split; [done|]. split; [done|].
  intros Hin. apply list_elem_of_singleton in Hin. discriminate.
Qed.

(** The queue of the test-suite gets the public endpoint. *)
Lemma apiUrl_precedence_witness :
  ZeploClient (runtime := Jest.runtime 200) Jest.resolving "route" None
              Jest.process_env = inr Jest.queue
  ∧ mode Jest.queue = production
  ∧ apiUrl Jest.queue = "https://zeplo.to".
Proof.
  assert (ZeploClient (runtime := Jest.runtime 200) Jest.resolving "route"
            None Jest.process_env = inr Jest.queue) as H
    by (vm_compute; reflexivity).
  split; [exact H|].
  destruct (apiUrl_precedence (runtime := Jest.runtime 200) Jest.resolving
              "route" None Jest.process_env Jest.queue H)
    as (Hmode & _ & _ & _ & Hurl).
  split; [exact Hmode|exact Hurl].
Defined.

(** "throws error when zeplo 400s" *)
Lemma enqueue_rejects_on_error_status_witness :
  @fetch _ _ (Jest.runtime 400)
    (request_input Jest.queue (effective_options Jest.queue None))
    (request_init (runtime := Jest.runtime 400) Jest.queue
                  (stringify Jest.foo_serializer Jest.bar))
  = inr (Jest.response 400)
  ∧ 400 ≤ res_status (Jest.response 400)
  ∧ ∃ message,
      (run (enqueue (runtime := Jest.runtime 400) Jest.queue Jest.bar None)).1
      = inl (Error message)
      ∧ message
        = unexpected_response (stringify Jest.foo_serializer Jest.bar)
            "https://zeplo.to/route" "res.text"
      ∧ Str.contains (stringify Jest.foo_serializer Jest.bar) message
      ∧ Str.contains "https://zeplo.to/route" message
      ∧ Str.contains "res.text" message.
Proof.
  split; [reflexivity|]. split; [simpl; lia|].
  apply (enqueue_rejects_on_error_status (runtime := Jest.runtime 400)
           Jest.queue Jest.bar None (Jest.response 400));
    [reflexivity|simpl; lia].
Defined.

(** "successfully calls endpoint eventually" *)
Lemma enqueue_posts_once_witness :
  ZeploClient (runtime := Jest.runtime 200) Jest.resolving "route" None
              Jest.process_env = inr Jest.queue
  ∧ ∃ input init,
      (run (enqueue (runtime := Jest.runtime 200) Jest.queue Jest.bar None)).2
      = [fetch_call input init]
      ∧ init_method init = "POST"
      ∧ init_body init = stringify Jest.foo_serializer Jest.bar.
Proof.
  assert (ZeploClient (runtime := Jest.runtime 200) Jest.resolving "route"
            None Jest.process_env = inr Jest.queue) as H
    by (vm_compute; reflexivity).
  split; [exact H|].
  destruct (enqueue_posts_once (runtime := Jest.runtime 200) Jest.resolving
              "route" None Jest.process_env Jest.queue Jest.bar None H)
    as (input & init & Hlog & Hmethod & Hbody & _).
  exists input, init. split; [exact Hlog|]. split; [exact Hmethod|exact Hbody].
Defined.

(** "successfully calls endpoint eventually", the delivery *)
Lemma respondTo_round_trip_witness :
  encryptor Jest.queue = pass_through
  ∧ schema Jest.queue = cast
  ∧ serializer_parse Jest.foo_serializer
      (stringify Jest.foo_serializer Jest.bar) = inr Jest.bar
  ∧ handler Jest.queue Jest.bar
      {| jobId := "foo"; start := Date.Time 1970000 |} = inr ()
  ∧ run (respondTo (runtime := Jest.runtime 200) Jest.queue
           (JString (stringify Jest.foo_serializer Jest.bar))
           Jest.delivery_headers)
    = (inr {| status := 200; body := body_object {| id := "foo" |} |},
       [handler_call Jest.bar
          {| jobId := "foo"; start := Date.Time 1970000 |}]).
Proof.
  split; [reflexivity|]. split; [reflexivity|].
  split; [vm_compute; reflexivity|]. split; [reflexivity|].
  apply (respondTo_round_trip (runtime := Jest.runtime 200)
           Jest.queue Jest.bar);
    [reflexivity|reflexivity|vm_compute; reflexivity|reflexivity].
Defined.

(** A delivery whose body is [undefined]. *)
Lemma respondTo_requires_string_body_witness :
  Jest.delivery_headers !! "x-zeplo-id" = Some (JString "foo")
  ∧ Jest.delivery_headers !! "x-zeplo-start"
    = Some (JString "1970-01-01T00:32:50.000Z")
  ∧ (∀ text, JUndefined ≠ JString text)
  ∧ ∃ e,
      e = ZodError [z.invalid_type [] z.t_string z.t_undefined]
      ∧ String_error (runtime := Jest.runtime 200) e = inr "ZodError"
      ∧ run (respondTo (runtime := Jest.runtime 200) Jest.queue
               JUndefined Jest.delivery_headers)
        = (inr {| status := 500; body := body_string "ZodError" |},
           [console_error e])
      ∧ ∀ payload meta,
          handler_call payload meta
          ∉ (run (respondTo (runtime := Jest.runtime 200) Jest.queue
                    JUndefined Jest.delivery_headers)).2.
Proof.
  split; [reflexivity|]. split; [reflexivity|].
  split; [intros text; discriminate|].
  apply (respondTo_requires_string_body (runtime := Jest.runtime 200)
           Jest.queue JUndefined Jest.delivery_headers "foo"
           "1970-01-01T00:32:50.000Z");
    [reflexivity|reflexivity|intros text; discriminate].
Defined.

(** * Further properties *)

Section Further.

Context {Payload Exn : Type} {runtime : Runtime Payload Exn}.

Implicit Types (c : Client Payload Exn) (payload : Payload).
Implicit Types (options : option EnqueueOptions).
Implicit Types (process_env : gmap string string).

(** Unfolds the operations of [Async]. *)
Ltac async :=
  unfold run, try_catch, mbind, mret, Async_bind, Async_ret, lift, emit, throw;
  simpl.

(** ** Declaring a queue *)

(** What [ZeploClient] returns, once the two steps that may throw are
    named. *)
Lemma ZeploClient_inr (h : Handler Payload Exn) (r : string)
    (opts : option (Options Payload Exn)) process_env c :
  ZeploClient h r opts process_env = inr c →
  let o := default no_options opts in
  let secret :=
    or_default (opt_encryptionSecret o)
               (process_env !! "ZEPLO_ENCRYPTION_SECRET") in
  ∃ old enc,
    match opt_oldSecrets o with
    | Some l => inr (Some l)
    | None => default_oldSecrets process_env
    end = inr old
    ∧ make_encryptor secret old = inr enc
    ∧ c = {| handler := h; route := r;
             baseUrl := or_default (opt_baseUrl o)
                                   (process_env !! "ZEPLO_BASE_URL");
             defaultDelay := opt_delay o; encryptionSecret := secret;
             env := or_default (opt_env o) (process_env !! "NODE_ENV");
             mode := default production (opt_mode o);
             defaultRetry := opt_retry o;
             schema := default cast (opt_schema o);
             serializer := default JSON (opt_serializer o);
             zeploToken := or_default (opt_token o)
                                      (process_env !! "ZEPLO_TOKEN");
             oldSecrets := old;
             apiUrl := match opt_apiUrl o with
                       | Some url => url
                       | None =>
                           default_apiUrl process_env
                             (default production (opt_mode o))
                       end;
             encryptor := enc |}.
Proof.
  intros H o secret. unfold ZeploClient in H. fold o in H. fold secret in H.
  destruct (match opt_oldSecrets o with Some _ => _ | None => _ end)
    as [e|old] eqn:Hold; [done|].
  destruct (make_encryptor secret old) as [e|enc] eqn:Henc; [done|].
  injection H as <-. exists old, enc. by repeat split.
Qed.

(** X1. An explicit option wins over the variable of the environment,
    which is used only when the option is absent: for the base URL, the
    token, the secret and the environment tag.  The mode defaults to
    production; the route, the handler and the default delay and retry
    are the declared ones. *)
Theorem options_precede_environment (h : Handler Payload Exn) (r : string)
    (opts : option (Options Payload Exn)) process_env c :
  ZeploClient h r opts process_env = inr c →
  let o := default no_options opts in
  let pick (explicit : option string) (variable : string) :=
    match explicit with
    | Some x => Some x
    | None => process_env !! variable
    end in
  baseUrl c = pick (opt_baseUrl o) "ZEPLO_BASE_URL"
  ∧ zeploToken c = pick (opt_token o) "ZEPLO_TOKEN"
  ∧ encryptionSecret c = pick (opt_encryptionSecret o) "ZEPLO_ENCRYPTION_SECRET"
  ∧ env c = pick (opt_env o) "NODE_ENV"
  ∧ mode c = match opt_mode o with Some m => m | None => production end
  ∧ handler c = h ∧ route c = r
  ∧ defaultDelay c = opt_delay o ∧ defaultRetry c = opt_retry o.
Proof.
  intros H o pick.
  destruct (ZeploClient_inr h r opts process_env c H) as (old & enc & _ & _ & ->).
  fold o. simpl. unfold pick, or_default.
  by destruct (opt_baseUrl o), (opt_token o), (opt_encryptionSecret o),
       (opt_env o), (opt_mode o).
Qed.

(** [z.array(z.string())] accepts the arrays of strings, and only them. *)
Lemma array_of_strings_accepted path i (l : list string) :
  z.array_items z.string path i (JString <$> l) = inr l.
Proof.
  revert i. induction l as [|s l IH]; intros i; [done|].
  simpl. by rewrite IH.
Qed.

Lemma array_of_strings_only path i items (l : list string) :
  z.array_items z.string path i items = inr l → items = JString <$> l.
Proof.
  revert i l. induction items as [|v items IH]; intros i l H; simpl in H.
  { by injection H as <-. }
  destruct (z.array_items z.string path (S i) items) as [issues|xs] eqn:E.
  - by destruct v.
  - destruct v; try done. simpl in H. injection H as <-.
    simpl. f_equal. by apply (IH (S i)).
Qed.

(** X2. Without an [oldSecrets] option, a non-empty [ZEPLO_OLD_SECRETS]
    must parse as a JSON array of strings.  A text that [JSON.parse]
    refuses makes the declaration throw the parser's error; a JSON value
    that is not an array of strings makes it throw a [ZodError]; with an
    array of strings the declaration goes on to the encryptor, which is
    built with that array when there is a secret, and unless that throws
    it returns the client whose old secrets are the array. *)
Theorem old_secrets_of_environment (h : Handler Payload Exn) (r : string)
    (opts : option (Options Payload Exn)) process_env (text : string) :
  opt_oldSecrets (default no_options opts) = None →
  process_env !! "ZEPLO_OLD_SECRETS" = Some text →
  Str.truthy text = true →
  let o := default no_options opts in
  let secret :=
    or_default (opt_encryptionSecret o)
               (process_env !! "ZEPLO_ENCRYPTION_SECRET") in
  match JSON_parse text with
  | inl e => ZeploClient h r opts process_env = inl e
  | inr v =>
      (∀ l, v = JArray (JString <$> l) →
         ZeploClient h r opts process_env
         = match
             (if truthy_string secret
              then new_Encryptor (template secret) (Some l)
              else inr pass_through)
           with
           | inl e => inl e
           | inr enc =>
               inr {| handler := h; route := r;
                      baseUrl := or_default (opt_baseUrl o)
                                   (process_env !! "ZEPLO_BASE_URL");
                      defaultDelay := opt_delay o;
                      encryptionSecret := secret;
                      env := or_default (opt_env o)
                               (process_env !! "NODE_ENV");
                      mode := default production (opt_mode o);
                      defaultRetry := opt_retry o;
                      schema := default cast (opt_schema o);
                      serializer := default JSON (opt_serializer o);
                      zeploToken := or_default (opt_token o)
                                      (process_env !! "ZEPLO_TOKEN");
                      oldSecrets := Some l;
                      apiUrl := match opt_apiUrl o with
                                | Some url => url
                                | None =>
                                    default_apiUrl process_env
                                      (default production (opt_mode o))
                                end;
                      encryptor := enc |}
           end)
      ∧ ((∀ l, v ≠ JArray (JString <$> l)) →
         ∃ issues, ZeploClient h r opts process_env = inl (ZodError issues))
  end.
Proof.
  intros Hopt Henv Htext o secret.
  assert (default_oldSecrets process_env
          = match JSON_parse text with
            | inl e => inl e
            | inr v =>
                match zod_parse (z.array z.string [] v) with
                | inl e => inl e
                | inr l => inr (Some l)
                end
            end) as Hold.
  { unfold default_oldSecrets. rewrite Henv. simpl. by rewrite Htext. }
  destruct (JSON_parse text) as [e|v] eqn:Hparse.
  - unfold ZeploClient. by rewrite Hopt, Hold.
  - split.
    + intros l ->. unfold ZeploClient. fold o. fold secret.
      unfold o at 1. rewrite Hopt, Hold. simpl.
      rewrite array_of_strings_accepted. simpl.
      unfold make_encryptor.
      by destruct (truthy_string secret); [destruct (new_Encryptor _ _)|].
    + intros Hno. unfold ZeploClient. rewrite Hopt, Hold.
      destruct v as [| |b|n|s|items|o']; try (by eexists; simpl).
      simpl.
      destruct (z.array_items z.string [] 0 items) as [issues|l] eqn:E;
        simpl; [by eexists|].
      apply array_of_strings_only in E. by destruct (Hno l); subst.
Qed.

(** X3. An [oldSecrets] option keeps the declaration from reading
    [ZEPLO_OLD_SECRETS]: whatever the variable holds, the declaration
    does what it does without it. *)
Theorem explicit_old_secrets_skip_environment (h : Handler Payload Exn)
    (r : string) (o : Options Payload Exn) process_env (l : list string)
    (text : string) :
  opt_oldSecrets o = Some l →
  ZeploClient h r (Some o) (<["ZEPLO_OLD_SECRETS" := text]> process_env)
  = ZeploClient h r (Some o) (delete "ZEPLO_OLD_SECRETS" process_env).
Proof.
  intros Hopt. unfold ZeploClient, default_apiUrl. simpl. rewrite Hopt.
  by rewrite !lookup_insert_ne, !lookup_delete_ne by done.
Qed.

(** X4. Without a secret (absent or empty) and without old secrets in
    the environment, the declaration cannot throw, whatever the
    encryption library would do, and the client passes text through
    unchanged in both directions. *)
Theorem declaration_without_secret (h : Handler Payload Exn) (r : string)
    (opts : option (Options Payload Exn)) process_env :
  let o := default no_options opts in
  truthy_string (or_default (opt_encryptionSecret o)
                            (process_env !! "ZEPLO_ENCRYPTION_SECRET"))
  = false →
  truthy_string (process_env !! "ZEPLO_OLD_SECRETS") = false →
  ∃ c, ZeploClient h r opts process_env = inr c
       ∧ (∀ text, encrypt (encryptor c) text = text)
       ∧ (∀ text, decrypt (encryptor c) text = inr text).
Proof.
  intros o Hsecret Hold. unfold ZeploClient. fold o.
  assert (match opt_oldSecrets o with
          | Some l => inr (Some l)
          | None => default_oldSecrets process_env
          end = inr (match opt_oldSecrets o with
                     | Some l => Some l
                     | None => None
                     end)) as ->.
  { destruct (opt_oldSecrets o); [done|].
    unfold default_oldSecrets. by rewrite Hold. }
  unfold make_encryptor. rewrite Hsecret. by eexists.
Qed.

(** ** Building the request *)

(** X5. What a call gives for [delay] or [retry] replaces the declared
    default altogether, also when the value given is falsy: a call-time
    delay of zero sends no delay parameter even if a default delay was
    declared.  The declared default is used only when the call gives
    nothing. *)
Theorem call_options_replace_defaults c payload (o : EnqueueOptions) :
  let ps := search_params c (effective_options c (Some o)) in
  let sent_delay (d : option Delay) :=
    match d with
    | Some (delay_number n) =>
        if Number.truthy n then Some (Number.toString n) else None
    | _ => None
    end in
  let sent_until (d : option Delay) :=
    match d with
    | Some (delay_date t) => Some (Number.toString (Date.valueOf t))
    | _ => None
    end in
  let sent_retry (r : option Retry) :=
    match r with
    | Some x => if truthy_retry r then Some (retry_value x) else None
    | None => None
    end in
  (∃ init, (run (enqueue c payload (Some o))).2
           = [fetch_call (target_url c +:+ "?" +:+ URLSearchParams.toString ps)
                         init])
  ∧ match delay o with
    | Some d =>
        URLSearchParams.get ps "_delay" = sent_delay (Some d)
        ∧ URLSearchParams.get ps "_delay_until" = sent_until (Some d)
    | None =>
        URLSearchParams.get ps "_delay" = sent_delay (defaultDelay c)
        ∧ URLSearchParams.get ps "_delay_until" = sent_until (defaultDelay c)
    end
  ∧ match retry o with
    | Some r => URLSearchParams.get ps "_retry" = sent_retry (Some r)
    | None => URLSearchParams.get ps "_retry" = sent_retry (defaultRetry c)
    end.
Proof.
  intros ps sent_delay sent_until sent_retry.
  destruct (search_params_get c (effective_options c (Some o)))
    as (_ & _ & Hdelay & Huntil & Hretry).
  fold ps in Hdelay, Huntil, Hretry.
  split; [|split].
  - eexists. rewrite enqueue_events. reflexivity.
  - rewrite Hdelay, Huntil. simpl.
    destruct (delay o) as [[n|t]|]; simpl; [done..|].
    by destruct (defaultDelay c) as [[n|t]|].
  - rewrite Hretry. simpl.
    destruct (retry o) as [r|]; simpl; [done|].
    by destruct (defaultRetry c).
Qed.

(** X6. A rejection of [fetch], and a rejection of [res.json()] on a
    response whose status is below 400, reach the caller of [enqueue]
    unchanged; [fetch] has then been called once. *)
Theorem enqueue_rethrows c payload options (e : error Exn) :
  let input := request_input c (effective_options c options) in
  let init := request_init c (stringify (serializer c) payload) in
  (fetch input init = inl e
   ∨ ∃ res, fetch input init = inr res
            ∧ res_status res < 400 ∧ res_json res = inl e) →
  run (enqueue c payload options) = (inl e, [fetch_call input init]).
Proof.
  intros input init H.
  rewrite (surjective_pairing (run (enqueue c payload options))).
  rewrite enqueue_events, enqueue_outcome. fold input init. f_equal.
  destruct H as [->|(res & -> & Hstatus & Hjson)]; [done|].
  by rewrite (proj2 (Z.leb_gt 400 (res_status res)) Hstatus), Hjson.
Qed.

(** X7. The names of the parameters of a request are taken, in order
    and without repetition, from [_env], [_trace], [_delay],
    [_delay_until], [_retry]; [_env] comes first, and [_delay] and
    [_delay_until] are never sent together. *)
Theorem parameter_names_of_a_request c (o : EnqueueOptions) :
  let names := (search_params c o).*1 in
  names `sublist_of` parameter_names
  ∧ head names = Some "_env"
  ∧ NoDup names
  ∧ ¬ ("_delay" ∈ names ∧ "_delay_until" ∈ names).
Proof.
  cbv zeta.
  unfold search_params, trace_params, delay_params, retry_params,
    parameter_names.
  destruct (truthy_string (trace o)), (delay o) as [[n|t]|],
    (retry o) as [r|];
    try destruct (Number.truthy n); try destruct (truthy_retry (Some r));
    simpl;
    (split; [repeat first [apply sublist_nil | apply sublist_skip
                          | apply sublist_cons]|]);
    (split; [reflexivity|]);
    (split; [by apply (bool_decide_unpack _)|]);
    by apply (bool_decide_unpack _).
Qed.

(** *** The query string cannot be broken *)

Lemma to_list_app (a b : string) :
  Str.to_list (a +:+ b) = (Str.to_list a ++ Str.to_list b)%list.
Proof.
  induction a as [|x a IH]; [done|].
  rewrite append_cons. simpl. by f_equal.
Qed.

Lemma to_list_of_list (l : list ascii) : Str.to_list (Str.of_list l) = l.
Proof. induction l as [|x l IH]; [done|]. simpl. by f_equal. Qed.

Lemma occurrences_app (ch : ascii) (a b : string) :
  occurrences ch (a +:+ b) = (occurrences ch a + occurrences ch b)%nat.
Proof.
  unfold occurrences. by rewrite to_list_app, List.filter_app, length_app.
Qed.

Lemma encode_byte_no_delimiter (ch c : ascii) :
  delimiter ch → List.filter (Ascii.eqb ch) (URLSearchParams.encode_byte c) = [].
Proof.
  intros [->|[->|[->| ->]]];
    by destruct c as [[] [] [] [] [] [] [] []].
Qed.

Lemma encode_no_delimiter (ch : ascii) (s : string) :
  delimiter ch → occurrences ch (URLSearchParams.encode s) = O.
Proof.
  intros Hch. unfold occurrences, URLSearchParams.encode.
  rewrite to_list_of_list.
  induction (Str.to_list s) as [|c l IH]; [done|].
  simpl. rewrite List.filter_app, length_app, IH.
  by rewrite (encode_byte_no_delimiter ch c Hch).
Qed.

Lemma occurrences_toString (ch : ascii) (entries : list (string * string)) :
  delimiter ch →
  occurrences ch (URLSearchParams.toString entries)
  = (if Ascii.eqb ch "="%char then length entries
     else if Ascii.eqb ch "&"%char then length entries - 1
     else 0)%nat.
Proof.
  intros Hch. unfold URLSearchParams.toString.
  assert (∀ p, occurrences ch (URLSearchParams.pair_toString p)
               = if Ascii.eqb ch "="%char then 1%nat else O) as Hpair.
  { intros p. unfold URLSearchParams.pair_toString.
    rewrite !occurrences_app, !encode_no_delimiter by done.
    by destruct Hch as [->|[->|[->| ->]]]. }
  induction entries as [|p [|q rest] IH].
  - by destruct Hch as [->|[->|[->| ->]]].
  - simpl. rewrite Hpair. by destruct Hch as [->|[->|[->| ->]]].
  - change (Str.join "&" (map URLSearchParams.pair_toString (p :: q :: rest)))
      with (URLSearchParams.pair_toString p +:+ "&" +:+
            Str.join "&" (map URLSearchParams.pair_toString (q :: rest))).
    rewrite !occurrences_app, Hpair, IH.
    destruct Hch as [->|[->|[->| ->]]]; simpl; lia.
Qed.

(** X8. Whatever the environment tag, the trace, the delay and the
    retry are, the query string of a request has one [=] for each
    parameter and one [&] between two parameters, and neither [?] nor
    [#]: no value can add a parameter or end the query. *)
Theorem query_cannot_be_broken c payload options :
  let ps := search_params c (effective_options c options) in
  let query := URLSearchParams.toString ps in
  (∃ init, (run (enqueue c payload options)).2
           = [fetch_call (target_url c +:+ "?" +:+ query) init])
  ∧ (1 ≤ length ps ≤ 4)%nat
  ∧ occurrences "="%char query = length ps
  ∧ occurrences "&"%char query = (length ps - 1)%nat
  ∧ occurrences "?"%char query = O
  ∧ occurrences "#"%char query = O.
Proof.
  intros ps query. split; [|split].
  - eexists. rewrite enqueue_events. reflexivity.
  - unfold ps, search_params, trace_params, delay_params, retry_params.
    rewrite !length_app.
    destruct (truthy_string _), (delay _) as [[n|t]|], (retry _) as [r|];
      try destruct (Number.truthy n); try destruct (truthy_retry (Some r));
      simpl; lia.
  - unfold query.
    rewrite !occurrences_toString by (unfold delimiter; auto). done.
Qed.

(** ** Deliveries *)

(** The catch block of [respondTo]. *)
Lemma catch_block (e : error Exn) (log : list (event Payload Exn)) :
  (_ ← emit (console_error e);
   text ← lift (String_error e);
   mret {| status := 500; body := body_string text |}) log
  = (match String_error e with
     | inr text => inr {| status := 500; body := body_string text |}
     | inl thrown => inl thrown
     end, (log ++ [console_error e])%list).
Proof.
  unfold mbind, mret, Async_bind, Async_ret, lift, emit. simpl.
  by destruct (String_error e).
Qed.

(** [respondTo] answers with 200 and the job id, or it logs an error
    last and answers with 500 and the string of that error, unless the
    conversion to a string throws. *)
Lemma respondTo_answers c rawBody headers :
  ∃ log,
    (∃ jobId,
       headers !! "x-zeplo-id" = Some (JString jobId)
       ∧ run (respondTo c rawBody headers)
         = (inr {| status := 200; body := body_object {| id := jobId |} |},
            log))
    ∨ (∃ e,
         last log = Some (console_error e)
         ∧ run (respondTo c rawBody headers)
           = (match String_error e with
              | inr text => inr {| status := 500; body := body_string text |}
              | inl thrown => inl thrown
              end, log)).
Proof.
  unfold respondTo.
  destruct (headers_valid_or_not headers) as [(jobId & start & H1 & H2)|Hbad].
  2: { destruct (headers_parse_invalid headers Hbad) as [issues Hi].
       eexists. right. exists (ZodError issues).
       unfold run, try_catch. rewrite <- catch_block.
       split; [|async; by rewrite Hi]. done. }
  rewrite (headers_parse_valid headers jobId start H1 H2).
  unfold run, try_catch.
  destruct (body_string_or_not rawBody) as [[text ->]|Hbody].
  2: { eexists. right.
       exists (ZodError
                 [z.invalid_type [] z.t_string (z.getParsedType rawBody)]).
       rewrite <- catch_block.
       split; [|destruct rawBody; try done; by destruct (Hbody s)]. done. }
  destruct (decrypt (encryptor c) text) as [e|plain] eqn:Hd.
  { eexists. right. exists e. rewrite <- catch_block.
    split; [|async; by rewrite Hd]. done. }
  destruct (serializer_parse (serializer c) plain) as [e|data] eqn:Hp.
  { eexists. right. exists e. rewrite <- catch_block.
    split; [|async; by rewrite Hd, Hp]. done. }
  destruct (schema_parse (schema c) data) as [e|payload] eqn:Hs.
  { eexists. right. exists e. rewrite <- catch_block.
    split; [|async; rewrite Hd; simpl; rewrite Hp; simpl; by rewrite Hs].
    done. }
  destruct (handler c payload {| jobId := jobId; start := start_date start |})
    as [e|[]] eqn:Hr.
  - eexists. right. exists e. rewrite <- catch_block.
    split; [|async; rewrite Hd; simpl; rewrite Hp; simpl; rewrite Hs; simpl;
             by rewrite Hr].
    done.
  - eexists. left. exists jobId. split; [done|].
    async. rewrite Hd. simpl. rewrite Hp. simpl. rewrite Hs. simpl.
    by rewrite Hr.
Qed.

(** X9. What [enqueue] posts is what the handler receives: when the
    encryptor decrypts what it encrypted, the serializer parses what it
    wrote and the schema accepts the payload, delivering the posted body
    with valid headers calls the handler once, with the payload as the
    schema returns it, the job id of the header and the start date of
    the header; the answer is 200 if the handler completes; if it
    rejects, its error is logged and the answer is 500 with the string of
    the error (or a rejection, when the error has no string). *)
Theorem posted_body_is_delivered c payload payload' options headers
    (jobId start : string) :
  let text := stringify (serializer c) payload in
  headers !! "x-zeplo-id" = Some (JString jobId) →
  headers !! "x-zeplo-start" = Some (JString start) →
  decrypt (encryptor c) (encrypt (encryptor c) text) = inr text →
  serializer_parse (serializer c) text = inr payload →
  schema_parse (schema c) payload = inr payload' →
  ∃ input init,
    (run (enqueue c payload options)).2 = [fetch_call input init]
    ∧ let meta := {| jobId := jobId; start := start_date start |} in
      run (respondTo c (JString (init_body init)) headers)
      = match handler c payload' meta with
        | inr _ =>
            (inr {| status := 200; body := body_object {| id := jobId |} |},
             [handler_call payload' meta])
        | inl e =>
            (match String_error e with
             | inr s => inr {| status := 500; body := body_string s |}
             | inl thrown => inl thrown
             end,
             [handler_call payload' meta; console_error e])
        end.
Proof.
  intros text H1 H2 Hd Hp Hs. eexists _, _.
  split; [apply enqueue_events|]. simpl. fold text.
  unfold respondTo.
  rewrite (headers_parse_valid headers jobId start H1 H2).
  unfold run, try_catch.
  destruct (handler c payload' {| jobId := jobId; start := start_date start |})
    as [e|[]] eqn:Hr.
  - change [handler_call payload'
              {| jobId := jobId; start := start_date start |};
            console_error e]
      with ([handler_call payload'
               {| jobId := jobId; start := start_date start |}]
            ++ [console_error e])%list.
    rewrite <- catch_block.
    unfold mbind, mret, Async_bind, Async_ret, lift, emit. simpl.
    rewrite Hd. simpl. rewrite Hp. simpl. rewrite Hs. simpl. by rewrite Hr.
  - unfold mbind, mret, Async_bind, Async_ret, lift, emit. simpl.
    rewrite Hd. simpl. rewrite Hp. simpl. rewrite Hs. simpl. by rewrite Hr.
Qed.

(** X10. The start header is not validated as a number: when it does
    not begin with a decimal literal, the delivery goes on and the
    handler is called with an invalid date. *)
Theorem unparsable_start_is_delivered c rawBody headers
    (jobId start text plain : string) (data payload : Payload) :
  headers !! "x-zeplo-id" = Some (JString jobId) →
  headers !! "x-zeplo-start" = Some (JString start) →
  Number.parseFloat start = Number.NaN →
  rawBody = JString text →
  decrypt (encryptor c) text = inr plain →
  serializer_parse (serializer c) plain = inr data →
  schema_parse (schema c) data = inr payload →
  let meta := {| jobId := jobId; start := Date.Invalid |} in
  handler c payload meta = inr () →
  run (respondTo c rawBody headers)
  = (inr {| status := 200; body := body_object {| id := jobId |} |},
     [handler_call payload meta]).
Proof.
  intros H1 H2 Hnan -> Hd Hp Hs meta Hr.
  unfold respondTo.
  rewrite (headers_parse_valid headers jobId start H1 H2).
  unfold run, try_catch, mbind, mret, Async_bind, Async_ret, lift, emit.
  simpl. rewrite Hd. simpl. rewrite Hp. simpl. rewrite Hs. simpl.
  assert (start_date start = Date.Invalid) as ->
    by (unfold start_date; by rewrite Hnan).
  fold meta. by rewrite Hr.
Qed.

(** ** The adapters *)

(** X11. The Pages Router adapter answers once: after the events of
    the client it calls [res.status] and then [res.send], once each, with
    200 and the JSON text of [{ id }] (the id of the header), or with 500
    and the string of the error logged last.  It rejects only when that
    error has no string, and then it calls neither. *)
Theorem pages_adapter_answers_once c (req : NextApiRequest) :
  let log := (run (respondTo c (req_body req) (req_headers req))).2 in
  (∃ jobId,
     req_headers req !! "x-zeplo-id" = Some (JString jobId)
     ∧ pages_handler c req
       = (inr (),
          (map client_event log
           ++ [status_call 200;
               send_call (JSONText.stringify_id {| id := jobId |})])%list))
  ∨ (∃ e,
       last log = Some (console_error e)
       ∧ pages_handler c req
         = match String_error e with
           | inr text =>
               (inr (),
                (map client_event log
                 ++ [status_call 500; send_call text])%list)
           | inl thrown => (inl thrown, map client_event log)
           end).
Proof.
  unfold pages_handler.
  destruct (respondTo_answers c (req_body req) (req_headers req))
    as (log & [(jobId & Hid & ->)|(e & Hlast & ->)]); cbn [snd].
  - left. by exists jobId.
  - right. exists e. split; [done|]. by destruct (String_error e).
Qed.

(** The object made from the entries of the headers. *)
Lemma fromEntries_absent (l : list (string * string)) (k : string)
    (acc : gmap string unknown) :
  k ∉ l.*1 →
  foldl (λ o p, <[p.1 := JString p.2]> o) acc l !! k = acc !! k.
Proof.
  revert acc. induction l as [|p l IH]; intros acc Hk; [done|].
  simpl in *. apply not_elem_of_cons in Hk as [Hne Hk].
  rewrite IH by done. by rewrite lookup_insert_ne.
Qed.

Lemma fromEntries_present (l : list (string * string)) (k : string)
    (acc : gmap string unknown) :
  k ∈ l.*1 →
  ∃ v, (k, v) ∈ l
       ∧ foldl (λ o p, <[p.1 := JString p.2]> o) acc l !! k
         = Some (JString v).
Proof.
  revert acc. induction l as [|[k' v'] l IH]; intros acc Hk.
  { by apply elem_of_nil in Hk. }
  simpl in *. destruct (decide (k ∈ l.*1)) as [Hin|Hout].
  - destruct (IH (<[k' := JString v']> acc) Hin) as (v & Hv & Hlook).
    exists v. split; [by apply elem_of_cons; right|done].
  - apply elem_of_cons in Hk as [->|Hk]; [|done].
    exists v'. split; [by apply elem_of_cons; left|].
    rewrite fromEntries_absent by done. by rewrite lookup_insert_eq.
Qed.

(** X12. The App Router adapter rejects when reading the body rejects,
    with that error and before the client runs.  Once the body is read it
    returns, after the events of the client, 200 with the JSON text of
    [{ id }] for the id of an [x-zeplo-id] header of the request, or 500
    with the string of the error logged last; it rejects then only when
    that error has no string. *)
Theorem app_adapter_answers c (req : NextRequest) :
  match req_text req with
  | inl e => app_handler c req = (inl e, [])
  | inr text =>
      let log :=
        (run (respondTo c (JString text) (fromEntries (req_entries req)))).2 in
      (∃ jobId,
         ("x-zeplo-id", jobId) ∈ req_entries req
         ∧ app_handler c req
           = (inr {| response_body :=
                       JSONText.stringify_id {| id := jobId |};
                     response_status := 200 |}, log))
      ∨ (∃ e,
           last log = Some (console_error e)
           ∧ app_handler c req
             = match String_error e with
               | inr s =>
                   (inr {| response_body := s; response_status := 500 |},
                    log)
               | inl thrown => (inl thrown, log)
               end)
  end.
Proof.
  unfold app_handler. destruct (req_text req) as [e|text]; [done|].
  destruct (respondTo_answers c (JString text) (fromEntries (req_entries req)))
    as (log & [(jobId & Hid & ->)|(e & Hlast & ->)]); cbn [snd].
  - left. exists jobId. split; [|done].
    destruct (decide ("x-zeplo-id" ∈ (req_entries req).*1)) as [Hin|Hout].
    + destruct (fromEntries_present (req_entries req) _ ∅ Hin)
        as (v & Hv & Hlook).
      unfold fromEntries in Hid. rewrite Hid in Hlook.
      by injection Hlook as ->.
    + unfold fromEntries in Hid.
      by rewrite (fromEntries_absent _ _ ∅ Hout) in Hid.
  - right. exists e. split; [done|]. by destruct (String_error e).
Qed.

(** X13. With the App Router adapter every header that is present is a
    string, so the validation of the headers succeeds exactly when both
    [x-zeplo-id] and [x-zeplo-start] are among the headers of the
    request, and fails with a [ZodError] otherwise; the values it returns
    are values of those headers. *)
Theorem app_headers_fail_only_when_missing (entries : list (string * string)) :
  let parsed :=
    z.shape2 "x-zeplo-id" z.string "x-zeplo-start" z.string []
             (fromEntries entries) in
  ((∃ p, parsed = inr p)
   ↔ "x-zeplo-id" ∈ entries.*1 ∧ "x-zeplo-start" ∈ entries.*1)
  ∧ ((∃ issues, parsed = inl issues)
     ↔ "x-zeplo-id" ∉ entries.*1 ∨ "x-zeplo-start" ∉ entries.*1)
  ∧ ∀ jobId start,
      parsed = inr (jobId, start) →
      ("x-zeplo-id", jobId) ∈ entries ∧ ("x-zeplo-start", start) ∈ entries.
Proof.
  intros parsed.
  assert (∀ k, k ∉ entries.*1 → get_property (fromEntries entries) k
                                 = JUndefined) as Habsent.
  { intros k Hk. unfold get_property, fromEntries.
    by rewrite (fromEntries_absent entries k ∅ Hk). }
  assert (∀ k, k ∈ entries.*1 →
               ∃ v, (k, v) ∈ entries
                    ∧ get_property (fromEntries entries) k = JString v)
    as Hpresent.
  { intros k Hk. unfold get_property, fromEntries.
    destruct (fromEntries_present entries k ∅ Hk) as (v & Hv & ->).
    by exists v. }
  assert (("x-zeplo-id" ∈ entries.*1 ∧ "x-zeplo-start" ∈ entries.*1
           ∧ ∃ jobId start, parsed = inr (jobId, start)
               ∧ ("x-zeplo-id", jobId) ∈ entries
               ∧ ("x-zeplo-start", start) ∈ entries)
          ∨ (("x-zeplo-id" ∉ entries.*1 ∨ "x-zeplo-start" ∉ entries.*1)
             ∧ ∃ issues, parsed = inl issues)) as Hcases.
  { unfold parsed, z.shape2.
    destruct (decide ("x-zeplo-id" ∈ entries.*1)) as [H1|H1],
      (decide ("x-zeplo-start" ∈ entries.*1)) as [H2|H2].
    - left. split; [done|]. split; [done|].
      destruct (Hpresent _ H1) as (jobId & Hin1 & ->).
      destruct (Hpresent _ H2) as (start & Hin2 & ->).
      by exists jobId, start.
    - right. split; [by right|].
      destruct (Hpresent _ H1) as (jobId & Hin1 & ->).
      rewrite (Habsent _ H2). by eexists.
    - right. split; [by left|].
      destruct (Hpresent _ H2) as (start & Hin2 & ->).
      rewrite (Habsent _ H1). by eexists.
    - right. split; [by left|].
      rewrite (Habsent _ H1), (Habsent _ H2). by eexists. }
  destruct Hcases as [(H1 & H2 & jobId & start & Hp & Hin1 & Hin2)
                     |(Hmissing & issues & Hi)].
  - split; [|split].
    + split; [done|]. intros _. by eexists.
    + split.
      * intros [issues Hi]. rewrite Hp in Hi. discriminate.
      * intros [H|H]; by destruct H.
    + intros j s' Hj. rewrite Hp in Hj. by injection Hj as <- <-.
  - split; [|split].
    + split.
      * intros [p Hp]. rewrite Hi in Hp. discriminate.
      * intros [H1 H2]. by destruct Hmissing as [H|H]; destruct H.
    + split; [done|]. intros _. by eexists.
    + intros j s' Hj. rewrite Hi in Hj. discriminate.
Qed.


(** ** Direct mode, end to end *)

(** X15. In direct mode, with [fetch] handing the request to the Pages
    Router adapter of the same queue (the loop of the test-suite), and
    with an encryptor, a serializer and a schema that give the payload
    back, [enqueue] runs the handler before it settles: it resolves with
    the id [<uuid>-iow] when the handler completes; when the handler
    rejects it rejects with the error of line 209 around the string of
    the handler's error, or with what the conversion of that error
    throws.  The start date the handler sees is read back from the
    header that [enqueue] wrote. *)
Theorem direct_mode_runs_inline c payload payload' options :
  let text := stringify (serializer c) payload in
  let jobId := v4 +:+ "-iow" in
  let meta :=
    {| jobId := jobId;
       start := start_date
                  (Number.toString (Number.div1000 (Number.of_Z Date_now))) |} in
  mode c = direct →
  decrypt (encryptor c) (encrypt (encryptor c) text) = inr text →
  serializer_parse (serializer c) text = inr payload →
  schema_parse (schema c) payload = inr payload' →
  JSON_parse (JSONText.stringify_id {| id := jobId |})
  = inr (JObject {[ "id" := JString jobId ]}) →
  (run (enqueue (runtime := inline c) c payload options)).1
  = match handler c payload' meta with
    | inr _ => inr {| id := jobId |}
    | inl e =>
        match String_error e with
        | inr s => inl (Error (unexpected_response text (target_url c) s))
        | inl thrown => inl thrown
        end
    end.
Proof.
  intros text jobId meta Hmode Hd Hp Hs Hjson.
  rewrite (enqueue_outcome (runtime := inline c)). cbv zeta. fold text.
  change (fetch (Runtime := inline c)) with (inline_fetch c).
  unfold inline_fetch, pages_handler, request_init, request_headers.
  cbn [init_body init_headers req_body req_headers]. rewrite Hmode.
  change (v4 (Runtime := inline c)) with v4.
  change (Date_now (Runtime := inline c)) with Date_now.
  fold jobId.
  unfold header_or_undefined.
  rewrite lookup_insert_eq, lookup_insert_ne, lookup_singleton_eq by done.
  assert (run (respondTo c (JString (encrypt (encryptor c) text))
                 {[ "x-zeplo-id" := JString jobId;
                    "x-zeplo-start" :=
                      JString (Number.toString
                                 (Number.div1000 (Number.of_Z Date_now))) ]})
          = match handler c payload' meta with
            | inr _ =>
                (inr {| status := 200;
                        body := body_object {| id := jobId |} |},
                 [handler_call payload' meta])
            | inl e =>
                (match String_error e with
                 | inr s => inr {| status := 500; body := body_string s |}
                 | inl thrown => inl thrown
                 end,
                 ([handler_call payload' meta] ++ [console_error e])%list)
            end) as ->.
  { unfold respondTo.
    rewrite (headers_parse_valid _ jobId
               (Number.toString (Number.div1000 (Number.of_Z Date_now))))
      by (by simplify_map_eq).
    unfold run, try_catch.
    destruct (handler c payload' meta) as [e|[]] eqn:Hr.
    - rewrite <- catch_block.
      unfold mbind, mret, Async_bind, Async_ret, lift, emit.
      cbn -[start_date Number.toString Number.div1000 Number.of_Z].
      rewrite Hd. cbn -[start_date Number.toString Number.div1000 Number.of_Z].
      rewrite Hp. cbn -[start_date Number.toString Number.div1000 Number.of_Z].
      rewrite Hs. cbn -[start_date Number.toString Number.div1000 Number.of_Z].
      fold meta. by rewrite Hr.
    - unfold mbind, mret, Async_bind, Async_ret, lift, emit.
      cbn -[start_date Number.toString Number.div1000 Number.of_Z].
      rewrite Hd. cbn -[start_date Number.toString Number.div1000 Number.of_Z].
      rewrite Hp. cbn -[start_date Number.toString Number.div1000 Number.of_Z].
      rewrite Hs. cbn -[start_date Number.toString Number.div1000 Number.of_Z].
      fold meta. by rewrite Hr. }
  destruct (handler c payload' meta) as [e|[]].
  - destruct (String_error e) as [thrown|s]; [done|].
    cbn -[JSONText.stringify_id]. done.
  - cbn -[JSONText.stringify_id]. rewrite Hjson. cbn. unfold get_property.
    by rewrite lookup_singleton_eq.
Qed.

(** ** The start header *)

Lemma uint_value_pos (d : Decimal.uint) (p : positive) :
  uint_value d (Npos p) = Npos (Pos.of_uint_acc d p).
Proof.
  revert p. induction d; intros p; simpl; try done;
    match goal with
    | |- uint_value _ ?a = _ =>
        let q := fresh in
        let E := fresh in
        destruct a as [|q] eqn:E; [lia|]; rewrite IHd; do 2 f_equal; lia
    end.
Qed.

Lemma uint_value_of_uint (d : Decimal.uint) :
  uint_value d 0 = N.of_uint d.
Proof.
  unfold N.of_uint.
  induction d; simpl; try done;
    match goal with
    | |- _ = N.pos (Pos.of_uint_acc _ ?p) => exact (uint_value_pos d p)
    end.
Qed.

Lemma read_digits_stop (acc : N) (rest : string) :
  stops_numeral rest = true →
  Number.read_digits acc (Str.to_list rest) = (acc, O, Str.to_list rest).
Proof.
  destruct rest as [|ch rest]; [done|]. simpl.
  by destruct (Number.digit_of ch).
Qed.

Lemma read_digits_cons (acc v : N) (ch : ascii) (l : list ascii) :
  Number.digit_of ch = Some v →
  Number.read_digits acc (ch :: l)
  = let '(x, n, r) := Number.read_digits (acc * 10 + v) l in (x, S n, r).
Proof. intros H. simpl. by rewrite H. Qed.

Lemma read_digits_uint (d : Decimal.uint) (acc : N) (rest : string) :
  stops_numeral rest = true →
  Number.read_digits acc
    (Str.to_list (NilEmpty.string_of_uint d) ++ Str.to_list rest)%list
  = (uint_value d acc, Decimal.nb_digits d, Str.to_list rest).
Proof.
  intros Hrest. revert acc.
  induction d; intros acc;
    [by apply read_digits_stop|..];
    cbn [NilEmpty.string_of_uint Str.to_list list_ascii_of_string app
         uint_value Decimal.nb_digits];
    erewrite read_digits_cons by reflexivity;
    rewrite IHd, ?N.add_0_r; reflexivity.
Qed.

(** Reading back the numeral of [n]. *)
Lemma read_digits_of_N (n : N) (rest : string) :
  stops_numeral rest = true →
  ∃ k ch tl,
    Str.to_list (Str.of_N n) = ch :: tl
    ∧ is_Some (Number.digit_of ch)
    ∧ Number.read_digits 0 (Str.to_list (Str.of_N n) ++ Str.to_list rest)%list
      = (n, S k, Str.to_list rest).
Proof.
  intros Hrest. unfold Str.of_N.
  pose proof (DecimalN.Unsigned.of_to n) as Hn.
  destruct (N.to_uint n) as [|d|d|d|d|d|d|d|d|d|d] eqn:Hd.
  { exists O, "0"%char, []. simpl in *. subst n.
    split; [done|]. split; [by eexists|].
    rewrite read_digits_stop by done. reflexivity. }
  all: eexists _, _, _; (split; [reflexivity|]); (split; [by eexists|]);
    change (NilZero.string_of_uint ?x) with (NilEmpty.string_of_uint x);
    rewrite (read_digits_uint _ 0 rest Hrest);
    rewrite uint_value_of_uint, Hn; reflexivity.
Qed.

(** Rounding to binary64 keeps the integers below [2 ^ 53], and sends
    the others to [2 ^ 53] or more. *)
Lemma floor_log2_1 (k : Z) : 0 < k → Number.floor_log2 k 1 = Z.log2 k.
Proof.
  intros Hk. unfold Number.floor_log2. change (Z.log2 1) with 0.
  rewrite Z.sub_0_r.
  pose proof (Z.log2_nonneg k) as Hlog.
  destruct (Z.log2_spec k Hk) as [Hlo _].
  rewrite (proj2 (Z.leb_le _ _) Hlog), Z.mul_1_l.
  by rewrite (proj2 (Z.leb_le _ _) Hlo).
Qed.

Lemma round_half_even_1 (a : Z) : Number.round_half_even a 1 = a.
Proof.
  unfold Number.round_half_even. by rewrite Z.div_1_r, Z.mod_1_r.
Qed.

Lemma round_half_even_ge (a b : Z) : a / b ≤ Number.round_half_even a b.
Proof.
  unfold Number.round_half_even. cbv zeta.
  repeat match goal with |- context [if ?c then _ else _] => destruct c end;
    lia.
Qed.

Lemma round64_integer (k : Z) :
  0 < k < 2 ^ 53 → Number.round64 k 1 = Number.binary k 0.
Proof.
  intros [Hk Hlt]. unfold Number.round64.
  rewrite (floor_log2_1 k Hk).
  pose proof (Z.log2_nonneg k) as Hlog.
  assert (Z.log2 k < 53) as Hlog' by (by apply Z.log2_lt_pow2).
  rewrite Z.max_l by lia. cbv zeta.
  destruct (Z.leb_spec 0 (Z.log2 k - 52)) as [Hge|Hneg].
  - replace (Z.log2 k - 52) with 0 by lia.
    change (1 * 2 ^ 0) with 1. rewrite round_half_even_1.
    change (971 <? 0) with false. change (0 =? 971) with false.
    unfold Number.normalize. change (0 <=? 0) with true. cbn [orb andb].
    by rewrite Z.pow_0_r, Z.mul_1_r.
  - rewrite round_half_even_1.
    rewrite (proj2 (Z.ltb_ge _ _)) by lia.
    rewrite (proj2 (Z.eqb_neq _ _)) by lia. cbn [orb andb].
    unfold Number.normalize.
    rewrite (proj2 (Z.leb_gt _ _) Hneg).
    assert (0 < 2 ^ (- (Z.log2 k - 52))) as Hpow
      by (apply Z.pow_pos_nonneg; lia).
    rewrite Z.mod_mul by lia. change (0 =? 0) with true. cbv iota.
    by rewrite Z.div_mul by lia.
Qed.

Lemma round64_large (k : Z) :
  2 ^ 53 ≤ k →
  Number.round64 k 1 = Number.overflow
  ∨ ∃ M, Number.round64 k 1 = Number.binary M 0 ∧ 2 ^ 53 ≤ M.
Proof.
  intros Hk. assert (0 < k) as Hpos by lia. unfold Number.round64.
  rewrite (floor_log2_1 k Hpos).
  assert (53 ≤ Z.log2 k) as Hlog by (by apply Z.log2_le_pow2).
  destruct (Z.log2_spec k Hpos) as [Hlo _].
  rewrite Z.max_l by lia. cbv zeta.
  rewrite (proj2 (Z.leb_le 0 (Z.log2 k - 52))) by lia.
  rewrite Z.mul_1_l.
  set (E := Z.log2 k - 52) in *.
  set (M := Number.round_half_even k (2 ^ E)).
  destruct ((971 <? E) || (E =? 971) && (M =? 2 ^ 53)); [by left|].
  right. unfold Number.normalize.
  rewrite (proj2 (Z.leb_le 0 E)) by lia.
  eexists. split; [done|].
  assert (0 < 2 ^ E) as Hpow by (apply Z.pow_pos_nonneg; lia).
  assert (2 ^ 1 ≤ 2 ^ E) as Htwo by (apply Z.pow_le_mono_r; lia).
  assert (2 ^ 52 ≤ k / 2 ^ E) as Hq.
  { apply Z.div_le_lower_bound; [done|].
    replace (Z.log2 k) with (E + 52) in Hlo by (unfold E; lia).
    rewrite Z.pow_add_r in Hlo by lia. lia. }
  pose proof (round_half_even_ge k (2 ^ E)) as HM. fold M in HM.
  change (2 ^ 53) with (2 ^ 52 * 2 ^ 1). nia.
Qed.

Lemma date_of_large (k : Z) :
  2 ^ 53 ≤ k →
  Date.of_number (Number.of_binary64 false (Number.round64 k 1))
  = Date.Invalid.
Proof.
  intros Hk. destruct (round64_large k Hk) as [->|(M & -> & HM)]; [done|].
  unfold Number.of_binary64.
  rewrite (proj2 (Z.eqb_neq M 0)) by lia.
  change (0 <=? 0) with true. cbv iota.
  unfold Date.of_number, Date.exceeds_limit.
  change (0 <=? 0) with true. cbv iota.
  rewrite !Z.pow_0_r, !Z.mul_1_r, Z2N.id by lia.
  rewrite (proj2 (Z.ltb_lt Date.limit M)); [done|].
  unfold Date.limit. lia.
Qed.

(** The date of a whole number of seconds. *)
Lemma date_of_whole_seconds (n : N) :
  Date.of_number (Number.mul (Number.Finite false n 0) (Number.of_Z 1000))
  = if Z.of_N n * 1000 <=? Date.limit
    then Date.Time (Z.of_N n * 1000)
    else Date.Invalid.
Proof.
  unfold Number.mul, Number.of_Z.
  change (Number.to_binary64 (Z.abs_N 1000) 0) with (Number.binary 1000 0).
  change (xorb false (1000 <? 0)) with false.
  unfold Number.to_binary64 at 1.
  destruct (N.eqb_spec n 0) as [->|Hn]; [done|].
  change (0 <=? 0) with true. cbv iota.
  rewrite Z.pow_0_r, Z.mul_1_r.
  assert (0 < Z.of_N n) as Hpos by lia.
  destruct (Z.lt_ge_cases (Z.of_N n) (2 ^ 53)) as [Hsmall|Hbig].
  - rewrite round64_integer by done.
    rewrite (proj2 (Z.eqb_neq (Z.of_N n * 1000) 0)) by lia.
    change (0 <=? 0 + 0) with true.
    cbv iota. rewrite Z.pow_0_r, Z.mul_1_r.
    destruct (Z.lt_ge_cases (Z.of_N n * 1000) (2 ^ 53)) as [Hsmall'|Hbig'].
    + rewrite round64_integer by lia.
      unfold Number.of_binary64.
      rewrite (proj2 (Z.eqb_neq (Z.of_N n * 1000) 0)) by lia.
      change (0 <=? 0) with true. cbv iota.
      unfold Date.of_number, Date.exceeds_limit, Number.trunc.
      change (0 <=? 0) with true. cbv iota.
      rewrite !Z.pow_0_r, !Z.mul_1_r, Z2N.id by lia.
      destruct (Z.leb_spec (Z.of_N n * 1000) Date.limit) as [Hle|Hgt].
      * by rewrite (proj2 (Z.ltb_ge _ _) Hle).
      * by rewrite (proj2 (Z.ltb_lt _ _) Hgt).
    + rewrite date_of_large by done.
      rewrite (proj2 (Z.leb_gt _ _)); [done|].
      unfold Date.limit. lia.
  - rewrite (proj2 (Z.leb_gt (Z.of_N n * 1000) Date.limit))
      by (unfold Date.limit; lia).
    destruct (round64_large _ Hbig) as [->|(M & -> & HM)]; [done|].
    rewrite (proj2 (Z.eqb_neq (M * 1000) 0)) by lia.
    change (0 <=? 0 + 0) with true.
    cbv iota. rewrite Z.pow_0_r, Z.mul_1_r.
    apply date_of_large. lia.
Qed.

(** X16. A start header that begins with the decimal numeral of [n] and
    does not go on with a digit, a point or an exponent is read as [n]
    seconds: the start date is [n * 1000] milliseconds, or the invalid
    date beyond the range of dates.  (So an ISO date is read as its year,
    in seconds.) *)
Theorem start_of_whole_seconds (n : N) (rest : string) :
  stops_numeral rest = true →
  Number.parseFloat (Str.of_N n +:+ rest) = Number.Finite false n 0
  ∧ start_date (Str.of_N n +:+ rest)
    = if Z.of_N n * 1000 <=? Date.limit
      then Date.Time (Z.of_N n * 1000)
      else Date.Invalid.
Proof.
  intros Hrest.
  assert (Number.parseFloat (Str.of_N n +:+ rest) = Number.Finite false n 0)
    as Hparse.
  { destruct (read_digits_of_N n rest Hrest)
      as (k & ch & tl & Hchars & [v Hch] & Hread).
    unfold Number.parseFloat. rewrite to_list_app.
    assert (Number.skip_spaces (Str.to_list (Str.of_N n) ++ Str.to_list rest)
            = (Str.to_list (Str.of_N n) ++ Str.to_list rest)%list) as ->.
    { rewrite Hchars.
      assert (Number.is_space ch = false) as Hsp
        by (by destruct ch as [[] [] [] [] [] [] [] []]).
      assert (∀ b, Number.is_space2 ch b = false) as Hsp2
        by (intros b; by destruct ch as [[] [] [] [] [] [] [] []]).
      assert (∀ x y : ascii, Number.is_space3 ch x y = false) as Hsp3
        by (intros x y; by destruct ch as [[] [] [] [] [] [] [] []]).
      cbn [app Number.skip_spaces]. rewrite Hsp.
      destruct (tl ++ Str.to_list rest)%list as [|x [|y l3]];
        rewrite ?Hsp2, ?Hsp3; reflexivity. }
    assert (Number.read_sign (Str.to_list (Str.of_N n) ++ Str.to_list rest)
            = (false, (Str.to_list (Str.of_N n) ++ Str.to_list rest)%list))
      as ->.
    { rewrite Hchars. simpl.
      by destruct ch as [[] [] [] [] [] [] [] []]. }
    assert (Number.starts_with "Infinity"
              (Str.to_list (Str.of_N n) ++ Str.to_list rest) = false) as ->.
    { rewrite Hchars. apply bool_decide_eq_false. simpl. intros H.
      injection H as -> _. discriminate. }
    rewrite Hread.
    destruct rest as [|c rest]; [done|]. simpl in *.
    destruct (Number.digit_of c); [done|].
    destruct (Ascii.eqb c "."%char) eqn:Hdot; [done|].
    destruct (Ascii.eqb c "e"%char) eqn:He; [done|].
    destruct (Ascii.eqb c "E"%char) eqn:HE; [done|].
    reflexivity. }
  split; [done|].
  unfold start_date. rewrite Hparse. apply date_of_whole_seconds.
Qed.

End Further.

(** ** The further properties on the test-suite's queues *)

Lemma options_precede_environment_witness :
  ZeploClient (runtime := Mock.online) Jest.resolving "route" None
              Jest.process_env = inr Jest.queue
  ∧ baseUrl Jest.queue = None
  ∧ zeploToken Jest.queue = None
  ∧ encryptionSecret Jest.queue = None
  ∧ env Jest.queue = Some "test"
  ∧ mode Jest.queue = production.
Proof.
  assert (ZeploClient (runtime := Mock.online) Jest.resolving "route" None
            Jest.process_env = inr Jest.queue) as H
    by (vm_compute; reflexivity).
  split; [exact H|].
  destruct (options_precede_environment (runtime := Mock.online)
              Jest.resolving "route" None Jest.process_env Jest.queue H)
    as (H1 & H2 & H3 & H4 & H5 & _).
  split; [exact H1|]. split; [exact H2|]. split; [exact H3|].
  split; [exact H4|exact H5].
Defined.

Lemma old_secrets_of_environment_witness :
  let process_env : gmap string string := {[ "ZEPLO_OLD_SECRETS" := "[]" ]} in
  opt_oldSecrets (default (no_options (Payload := Jest.Foo) (Exn := string))
                          None) = None
  ∧ process_env !! "ZEPLO_OLD_SECRETS" = Some "[]"
  ∧ Str.truthy "[]" = true
  ∧ ∃ c, ZeploClient (runtime := Mock.online) Jest.resolving "route" None
                     process_env = inr c
         ∧ oldSecrets c = Some []
         ∧ encryptor c = pass_through.
Proof.
  intros process_env.
  split; [reflexivity|]. split; [reflexivity|]. split; [reflexivity|].
  pose proof (old_secrets_of_environment (runtime := Mock.online)
                Jest.resolving "route" None process_env "[]"
                eq_refl eq_refl eq_refl) as H.
  destruct H as [H _]. specialize (H [] eq_refl).
  eexists. split; [exact H|]. split; reflexivity.
Defined.

Lemma explicit_old_secrets_skip_environment_witness :
  let o : Options Jest.Foo string :=
    {| opt_apiUrl := None; opt_baseUrl := None; opt_delay := None;
       opt_encryptionSecret := None; opt_env := None; opt_mode := None;
       opt_oldSecrets := Some []; opt_retry := None; opt_schema := None;
       opt_serializer := None; opt_token := None |} in
  opt_oldSecrets o = Some []
  ∧ ZeploClient (runtime := Mock.online) Jest.resolving "route" (Some o)
      (<["ZEPLO_OLD_SECRETS" := "not json"]> Jest.process_env)
    = ZeploClient (runtime := Mock.online) Jest.resolving "route" (Some o)
        (delete "ZEPLO_OLD_SECRETS" Jest.process_env).
Proof.
  intros o. split; [reflexivity|].
  apply (explicit_old_secrets_skip_environment (runtime := Mock.online)
           Jest.resolving "route" o Jest.process_env [] "not json").
  reflexivity.
Defined.

Lemma declaration_without_secret_witness :
  truthy_string (or_default
                   (opt_encryptionSecret
                      (default (no_options (Payload := Jest.Foo)
                                           (Exn := string)) None))
                   (Jest.process_env !! "ZEPLO_ENCRYPTION_SECRET")) = false
  ∧ truthy_string (Jest.process_env !! "ZEPLO_OLD_SECRETS") = false
  ∧ ∃ c, ZeploClient (runtime := Mock.online) Jest.resolving "route" None
                     Jest.process_env = inr c
         ∧ (∀ text, encrypt (encryptor c) text = text)
         ∧ (∀ text, decrypt (encryptor c) text = inr text).
Proof.
  split; [reflexivity|]. split; [reflexivity|].
  apply (declaration_without_secret (runtime := Mock.online)
           Jest.resolving "route" None Jest.process_env);
    reflexivity.
Defined.

(** "rethrows enqueue error" *)
Lemma enqueue_rethrows_witness :
  let input := request_input Jest.queue (effective_options Jest.queue None) in
  let init :=
    request_init (runtime := Mock.offline) Jest.queue
                 (stringify Jest.foo_serializer Jest.bar) in
  (@fetch _ _ Mock.offline input init = inl (Error "Mock Error")
   ∨ ∃ res, @fetch _ _ Mock.offline input init = inr res
            ∧ res_status res < 400 ∧ res_json res = inl (Error "Mock Error"))
  ∧ run (enqueue (runtime := Mock.offline) Jest.queue Jest.bar None)
    = (inl (Error "Mock Error"), [fetch_call input init]).
Proof.
  intros input init.
  assert (@fetch _ _ Mock.offline input init = inl (Error "Mock Error")
          ∨ ∃ res, @fetch _ _ Mock.offline input init = inr res
                   ∧ res_status res < 400
                   ∧ res_json res = inl (Error "Mock Error")) as H
    by (left; reflexivity).
  split; [exact H|].
  exact (enqueue_rethrows (runtime := Mock.offline) Jest.queue Jest.bar None
           (Error "Mock Error") H).
Defined.

(** "encrypts body with encryptionSecret" *)
Lemma posted_body_is_delivered_witness :
  let c := Mock.encrypted_queue in
  let text := stringify (serializer c) Jest.bar in
  Jest.delivery_headers !! "x-zeplo-id" = Some (JString "foo")
  ∧ Jest.delivery_headers !! "x-zeplo-start"
    = Some (JString "1970-01-01T00:32:50.000Z")
  ∧ decrypt (encryptor c) (encrypt (encryptor c) text) = inr text
  ∧ serializer_parse (serializer c) text = inr Jest.bar
  ∧ schema_parse (schema c) Jest.bar = inr Jest.bar
  ∧ ∃ input init,
      (run (enqueue (runtime := Mock.online) c Jest.bar None)).2
      = [fetch_call input init]
      ∧ init_body init ≠ text
      ∧ run (respondTo (runtime := Mock.online) c (JString (init_body init))
                       Jest.delivery_headers)
        = (inr {| status := 200; body := body_object {| id := "foo" |} |},
           [handler_call Jest.bar
              {| jobId := "foo"; start := Date.Time 1970000 |}]).
Proof.
  intros c text.
  assert (decrypt (encryptor c) (encrypt (encryptor c) text) = inr text)
    as Hd by (vm_compute; reflexivity).
  assert (serializer_parse (serializer c) text = inr Jest.bar)
    as Hp by (vm_compute; reflexivity).
  split; [reflexivity|]. split; [reflexivity|]. split; [exact Hd|].
  split; [exact Hp|]. split; [reflexivity|].
  destruct (posted_body_is_delivered (runtime := Mock.online) c Jest.bar
              Jest.bar None Jest.delivery_headers "foo"
              "1970-01-01T00:32:50.000Z" eq_refl eq_refl Hd Hp eq_refl)
    as (input & init & Hlog & Hrun).
  exists input, init. split; [exact Hlog|].
  assert (init_body init = Mock.secret +:+ ":" +:+ text) as Hbody.
  { assert ([fetch_call input init]
            = (run (enqueue (runtime := Mock.online) c Jest.bar None)).2)
      as Heq by (symmetry; exact Hlog).
    vm_compute in Heq. injection Heq as _ ->. vm_compute. reflexivity. }
  split.
  - rewrite Hbody. vm_compute. discriminate.
  - exact Hrun.
Defined.

Lemma unparsable_start_is_delivered_witness :
  let headers : gmap string unknown :=
    {[ "x-zeplo-id" := JString "foo"; "x-zeplo-start" := JString "soon" ]} in
  let text := stringify Jest.foo_serializer Jest.bar in
  headers !! "x-zeplo-id" = Some (JString "foo")
  ∧ headers !! "x-zeplo-start" = Some (JString "soon")
  ∧ Number.parseFloat "soon" = Number.NaN
  ∧ decrypt (encryptor Jest.queue) text = inr text
  ∧ serializer_parse (serializer Jest.queue) text = inr Jest.bar
  ∧ schema_parse (schema Jest.queue) Jest.bar = inr Jest.bar
  ∧ handler Jest.queue Jest.bar {| jobId := "foo"; start := Date.Invalid |}
    = inr ()
  ∧ run (respondTo (runtime := Mock.online) Jest.queue (JString text) headers)
    = (inr {| status := 200; body := body_object {| id := "foo" |} |},
       [handler_call Jest.bar {| jobId := "foo"; start := Date.Invalid |}]).
Proof.
  intros headers text.
  assert (serializer_parse (serializer Jest.queue) text = inr Jest.bar)
    as Hp by (vm_compute; reflexivity).
  split; [reflexivity|]. split; [reflexivity|]. split; [reflexivity|].
  split; [reflexivity|]. split; [exact Hp|]. split; [reflexivity|].
  split; [reflexivity|].
  exact (unparsable_start_is_delivered (runtime := Mock.online) Jest.queue
           (JString text) headers "foo" "soon" text text Jest.bar Jest.bar
           eq_refl eq_refl eq_refl eq_refl eq_refl Hp eq_refl eq_refl).
Defined.

(** "calls queue inline instead of waiting with mode=direct" *)
Lemma direct_mode_runs_inline_witness :
  let c := Jest.direct_queue in
  let text := stringify (serializer c) Jest.bar in
  mode c = direct
  ∧ decrypt (encryptor c) (encrypt (encryptor c) text) = inr text
  ∧ serializer_parse (serializer c) text = inr Jest.bar
  ∧ schema_parse (schema c) Jest.bar = inr Jest.bar
  ∧ Mock.parse_id (JSONText.stringify_id {| id := "foo-iow" |})
    = inr (JObject {[ "id" := JString "foo-iow" ]})
  ∧ (run (enqueue (runtime := inline (runtime := Mock.online) c)
                  c Jest.bar None)).1
    = inr {| id := "foo-iow" |}.
Proof.
  intros c text.
  assert (serializer_parse (serializer c) text = inr Jest.bar)
    as Hp by (vm_compute; reflexivity).
  assert (Mock.parse_id (JSONText.stringify_id {| id := "foo-iow" |})
          = inr (JObject {[ "id" := JString "foo-iow" ]}))
    as Hjson by (vm_compute; reflexivity).
  split; [reflexivity|]. split; [reflexivity|]. split; [exact Hp|].
  split; [reflexivity|]. split; [exact Hjson|].
  exact (direct_mode_runs_inline (runtime := Mock.online) c Jest.bar Jest.bar
           None eq_refl eq_refl Hp eq_refl Hjson).
Defined.

(** The start header of the test-suite: an ISO date, read as its year. *)
Lemma start_of_whole_seconds_witness :
  stops_numeral "-01-01T00:32:50.000Z" = true
  ∧ Number.parseFloat (Str.of_N 1970 +:+ "-01-01T00:32:50.000Z")
    = Number.Finite false 1970 0
  ∧ start_date (Str.of_N 1970 +:+ "-01-01T00:32:50.000Z")
    = Date.Time 1970000.
Proof.
  split; [reflexivity|].
  exact (start_of_whole_seconds 1970 "-01-01T00:32:50.000Z" eq_refl).
Defined.
